(** * Apprendre l'anglais avec l'IA: the audio pipeline and the view logic

    A shallow embedding of the tutoring application's logic:
    - the Base64 codec and the PCM frame decoder of [services/audioUtils]
      (imported by both views, used on every synthesized-speech payload),
    - the remote wrappers of [services/geminiService.ts]
      ([generateVisualVocab], [checkPronunciation], [generateSpeech]),
    - the recording handlers of [components/VisualDictView.tsx] and of the
      chat view, over an explicit store of platform recorders,
    - the quiz bookkeeping of the lesson view ([checkAnswers]).

    Browser state (React state cells, refs, [localStorage], the platform's
    [MediaRecorder] objects) is threaded explicitly; promises are values
    that settle at a tick with a resolution or a rejection; a string holds
    the UTF-8 encoding of the JavaScript string. *)

From Stdlib Require Import NArith ZArith QArith Ascii String List Lia.
From Stdlib.Strings Require Import Byte.
From stdpp Require Import base option list gmap strings pretty.

Set Default Proof Using "Type".

(** Goals about quotients and remainders by constants. *)
Ltac euclid := Z.to_euclidean_division_equations; lia.

(** Splits the conjunctions of the goal, and nothing else. *)
Ltac conjuncts := repeat match goal with |- _ /\ _ => split end.

(** ** Error kinds and fallible results *)

(** The error kinds of the specification's section 7. *)
Inductive ErrorKind : Type :=
  | FormatError
  | DecodeError
  | DeviceError
  | StateError
  | RemoteError.

Inductive result (A : Type) : Type :=
  | Ok (a : A)
  | Err (e : ErrorKind).
Arguments Ok {A} a.
Arguments Err {A} e.

Definition result_map {A B : Type} (f : A -> B) (r : result A) : result B :=
  match r with
  | Ok a => Ok (f a)
  | Err e => Err e
  end.

(** ** Base64 binary codec *)

Module Base64.

Local Open Scope N_scope.

(** Modelled from the spec: the codec of [services/audioUtils], which is
    not among the sources, is "a standard reversible binary-to-text coding
    representing 3 bytes as 4 printable characters".  This is the standard
    alphabet: the character at position [i] stands for the six-bit value
    [i]. *)
Definition alphabet : string :=
  "ABCDEFGHIJKLMNOPQRSTUVWXYZabcdefghijklmnopqrstuvwxyz0123456789+/"%string.

Definition pad : ascii := "="%char.

Definition sextet_to_char (n : N) : ascii :=
  match String.get (N.to_nat n) alphabet with
  | Some c => c
  | None => pad
  end.

Fixpoint index_from (i : N) (c : ascii) (s : string) : option N :=
  match s with
  | EmptyString => None
  | String d s' => if Ascii.eqb c d then Some i else index_from (N.succ i) c s'
  end.

Definition char_to_sextet (c : ascii) : option N := index_from 0 c alphabet.

Definition byte_of_N (n : N) : byte :=
  match Byte.of_N n with
  | Some b => b
  | None => x00
  end.

(** The 24-bit group of three bytes, most significant first. *)
Definition group24 (a b c : N) : N := a * 65536 + b * 256 + c.

(** The four sextets of a 24-bit group, most significant first. *)
Definition sextet (k : N) (n : N) : N :=
  match k with
  | 0 => n / 262144
  | 1 => n / 4096 mod 64
  | 2 => n / 64 mod 64
  | _ => n mod 64
  end.

Definition regroup (s0 s1 s2 s3 : N) : N :=
  ((s0 * 64 + s1) * 64 + s2) * 64 + s3.

Definition str4 (c0 c1 c2 c3 : ascii) (rest : string) : string :=
  String c0 (String c1 (String c2 (String c3 rest))).

(** Modelled from the spec: [encode(bytes) -> text] of section 4.1, defined
    on every byte sequence.  Three bytes become four characters; a final
    group of one or two bytes is zero-filled and completed with padding
    characters. *)
Fixpoint encode (bs : list byte) : string :=
  match bs with
  | [] => EmptyString
  | [a] =>
      let n := group24 (Byte.to_N a) 0 0 in
      str4 (sextet_to_char (sextet 0 n)) (sextet_to_char (sextet 1 n))
           pad pad EmptyString
  | [a; b] =>
      let n := group24 (Byte.to_N a) (Byte.to_N b) 0 in
      str4 (sextet_to_char (sextet 0 n)) (sextet_to_char (sextet 1 n))
           (sextet_to_char (sextet 2 n)) pad EmptyString
  | a :: b :: c :: rest =>
      let n := group24 (Byte.to_N a) (Byte.to_N b) (Byte.to_N c) in
      str4 (sextet_to_char (sextet 0 n)) (sextet_to_char (sextet 1 n))
           (sextet_to_char (sextet 2 n)) (sextet_to_char (sextet 3 n))
           (encode rest)
  end.

(** A full quantum: four alphabet characters give three bytes. *)
Definition decode_quad (c0 c1 c2 c3 : ascii) : option (list byte) :=
  match char_to_sextet c0, char_to_sextet c1,
        char_to_sextet c2, char_to_sextet c3 with
  | Some s0, Some s1, Some s2, Some s3 =>
      let m := regroup s0 s1 s2 s3 in
      Some [byte_of_N (m / 65536); byte_of_N (m / 256 mod 256);
            byte_of_N (m mod 256)]
  | _, _, _, _ => None
  end.

(** The last quantum may end in one or two padding characters. *)
Definition decode_last (c0 c1 c2 c3 : ascii) : option (list byte) :=
  if Ascii.eqb c3 pad then
    if Ascii.eqb c2 pad then
      match char_to_sextet c0, char_to_sextet c1 with
      | Some s0, Some s1 =>
          let m := regroup s0 s1 0 0 in
          Some [byte_of_N (m / 65536)]
      | _, _ => None
      end
    else
      match char_to_sextet c0, char_to_sextet c1, char_to_sextet c2 with
      | Some s0, Some s1, Some s2 =>
          let m := regroup s0 s1 s2 0 in
          Some [byte_of_N (m / 65536); byte_of_N (m / 256 mod 256)]
      | _, _, _ => None
      end
  else decode_quad c0 c1 c2 c3.

(** Modelled from the spec: [decode(text) -> bytes] of section 4.1, which
    "fails with FormatError on invalid alphabet or padding".  The text must
    be a sequence of four-character quanta over the alphabet, padding
    allowed only at the end of the last quantum. *)
Fixpoint decode (s : string) : result (list byte) :=
  match s with
  | EmptyString => Ok []
  | String c0 (String c1 (String c2 (String c3 rest))) =>
      match rest with
      | EmptyString =>
          match decode_last c0 c1 c2 c3 with
          | Some bs => Ok bs
          | None => Err FormatError
          end
      | String _ _ =>
          match decode_quad c0 c1 c2 c3 with
          | Some bs => result_map (app bs) (decode rest)
          | None => Err FormatError
          end
      end
  | _ => Err FormatError
  end.

End Base64.

(** ** PCM frame decoder *)

Module PCM.

Local Open Scope Z_scope.

Definition byte_val (b : byte) : Z := Z.of_N (Byte.to_N b).

(** Modelled from the spec: the little-endian signed 16-bit reading of two
    consecutive bytes (the [Int16Array] view of [services/audioUtils],
    which is not among the sources). *)
Definition int16_le (lo hi : byte) : Z :=
  let u := byte_val lo + 256 * byte_val hi in
  if u <? 32768 then u else u - 65536.

(** Modelled from the spec: the flat int16 stream of a byte sequence; a
    trailing odd byte is dropped. *)
Fixpoint int16_stream (bs : list byte) : list Z :=
  match bs with
  | lo :: hi :: rest => int16_le lo hi :: int16_stream rest
  | _ => []
  end.

(** Modelled from the spec: "each int16 value v maps to float sample
    v / 32768.0".  The quotient of a 16-bit integer by a power of two is
    exactly representable in binary floating point, so the sample is kept
    as the rational it denotes. *)
Definition to_sample (v : Z) : Q := (inject_Z v / 32768)%Q.

(** A SampleBuffer: "an ordered sequence of PCMSample values plus a channel
    count and sample rate". *)
Record SampleBuffer : Type := mkSampleBuffer {
  samples : list Q;
  channelCount : Z;
  sampleRate : Z
}.

(** Samples [c], [c + n], [c + 2n], ... of an interleaved stream. *)
Fixpoint every_nth (n : nat) (skip : nat) (l : list Q) : list Q :=
  match l with
  | [] => []
  | x :: l' =>
      match skip with
      | O => x :: every_nth n (Nat.pred n) l'
      | S k => every_nth n k l'
      end
  end.

(** Modelled from the spec: the data of channel [c] of a buffer. *)
Definition getChannelData (buf : SampleBuffer) (c : nat) : list Q :=
  every_nth (Z.to_nat (channelCount buf)) c (samples buf).

(** Modelled from the spec: what section 4.2 leaves open.  It asks for a
    [DecodeError] when [bytes] is empty and, in the same sentence, calls the
    zero-length buffer "a degenerate but valid empty SampleBuffer", "a
    design choice to make explicit".  [services/audioUtils] is not among
    the sources, so the choice stays a parameter of the decoder. *)
Inductive EmptyInput : Type :=
  | EmptyFails     (* empty [bytes] are a [DecodeError] *)
  | EmptyDecodes.  (* empty [bytes] give the empty SampleBuffer *)

Definition refused (choice : EmptyInput) (bytes : list byte) : bool :=
  match choice with
  | EmptyFails => bool_decide (bytes = [])
  | EmptyDecodes => false
  end.

(** Modelled from the spec: [decodeAudioData(bytes, sampleRate,
    channelCount)] of [services/audioUtils] (section 4.2): a [DecodeError]
    when [channelCount < 1], and on empty [bytes] where that is the choice
    made; otherwise the buffer of the decoded samples. *)
Definition decodeAudioData (choice : EmptyInput) (bytes : list byte)
    (rate : Z) (channels : Z) : result SampleBuffer :=
  if (channels <? 1) || refused choice bytes then Err DecodeError
  else Ok {| samples := map to_sample (int16_stream bytes);
             channelCount := channels;
             sampleRate := rate |}.

End PCM.

(** ** JavaScript values, exceptions and promises *)

Module Js.

(** What a [throw] or a rejected promise carries. *)
Inductive Exn : Type :=
  | RemoteFailure (reason : string)  (* the API call itself failed *)
  | TypeError                        (* property read on undefined or null *)
  | SyntaxError                      (* JSON.parse on malformed text *)
  | Error (msg : string)             (* [new Error(msg)] *)
  | DOMException (name : string).    (* platform errors, by name *)

Inductive Settled (A : Type) : Type :=
  | Resolved (a : A)
  | Rejected (e : Exn).
Arguments Resolved {A} a.
Arguments Rejected {A} e.

Definition bind {A B : Type} (m : Settled A) (k : A -> Settled B) : Settled B :=
  match m with
  | Resolved a => k a
  | Rejected e => Rejected e
  end.

Definition is_rejected {A : Type} (m : Settled A) : bool :=
  match m with
  | Resolved _ => false
  | Rejected _ => true
  end.

(** A promise, seen from the event loop: the tick at which it settles and
    how.  No order is assumed between the ticks of two promises. *)
Record Promise (A : Type) : Type := mkPromise {
  settles_at : nat;
  outcome : Settled A
}.
Arguments mkPromise {A} _ _.
Arguments settles_at {A} _.
Arguments outcome {A} _.

(** [Promise.all([p, q])]: both values once both have resolved; the reason
    of the first promise to reject otherwise (the earlier array position
    on equal ticks). *)
Definition promise_all2 {A B : Type} (p : Promise A) (q : Promise B)
  : Settled (A * B) :=
  match outcome p, outcome q with
  | Resolved a, Resolved b => Resolved (a, b)
  | Rejected e, Resolved _ => Rejected e
  | Resolved _, Rejected e => Rejected e
  | Rejected e1, Rejected e2 =>
      if Nat.ltb (settles_at q) (settles_at p) then Rejected e2
      else Rejected e1
  end.

(** Parsed JSON.  A property read on a value that may be [undefined] is an
    [option Json]. *)
#[local] Unset Elimination Schemes.
Inductive Json : Type :=
  | JNull
  | JBool (b : bool)
  | JNum (q : Q)
  | JStr (s : string)
  | JArr (items : list Json)
  | JObj (fields : list (string * Json)).
#[local] Set Elimination Schemes.

Fixpoint assoc (k : string) (fields : list (string * Json)) : option Json :=
  match fields with
  | [] => None
  | (k', v) :: rest => if String.eqb k k' then Some v else assoc k rest
  end.

(** [j.k] for a data property [k]: a [TypeError] on [null], the field of an
    object, [undefined] on every other value. *)
Definition get_field (j : Json) (k : string) : Settled (option Json) :=
  match j with
  | JNull => Rejected TypeError
  | JObj fields => Resolved (assoc k fields)
  | _ => Resolved None
  end.

(** Truthiness, as [||] and [if] see it. *)
Definition truthy (v : option Json) : bool :=
  match v with
  | None => false
  | Some JNull => false
  | Some (JBool b) => b
  | Some (JNum q) => negb (Qeq_bool q 0)
  | Some (JStr s) => negb (String.eqb s "")
  | Some (JArr _) => true
  | Some (JObj _) => true
  end.

Definition truthy_text (t : option string) : bool :=
  match t with
  | None => false
  | Some s => negb (String.eqb s "")
  end.

(** [t || fallback] on an optional string. *)
Definition text_or (t : option string) (fallback : string) : string :=
  match t with
  | Some s => if String.eqb s "" then fallback else s
  | None => fallback
  end.

(** The double-quote character, for prompt texts. *)
Definition dq : string := String (ascii_of_nat 34) EmptyString.

End Js.

Declare Scope settled_scope.
Delimit Scope settled_scope with settled.
Notation "x <- m ;; k" := (Js.bind m (fun x => k))
  (at level 100, m at next level, right associativity) : settled_scope.

(** ** The remote generation client: [services/geminiService.ts] *)

Module Gemini.

Import Js.
Local Open Scope string_scope.

Record InlineData : Type := mkInlineData {
  mimeType : string;
  data : option string
}.

Record Part : Type := mkPart {
  part_text : option string;
  inlineData : option InlineData
}.

Record Content : Type := mkContent { parts : option (list Part) }.

Record Candidate : Type := mkCandidate { content : option Content }.

(** A [generateContent] response: its [text] accessor and its candidates. *)
Record Response : Type := mkResponse {
  text : option string;
  candidates : option (list Candidate)
}.

Inductive SchemaType : Type := T_STRING | T_NUMBER.

Inductive Config : Type :=
  | JsonObject (properties : list (string * SchemaType))
  | ImageConfig (aspectRatio : string)
  | SpeechConfig (voiceName : string).

Record Request : Type := mkRequest {
  model : string;
  contents : list Part;
  config : Config
}.

(** What the calls leave behind: the requests issued, in order, and the
    console. *)
Record World : Type := mkWorld {
  issued : list Request;
  console : list string
}.

Definition text_part (s : string) : Part :=
  {| part_text := Some s; inlineData := None |}.

Definition defRequest (word : string) : Request :=
  {| model := "gemini-2.5-flash";
     contents := [text_part ("Define the English word " ++ dq ++ word ++ dq
       ++ " for a French student. Provide a definition in simple English, a translation in French, and an example sentence.")];
     config := JsonObject [("word", T_STRING); ("definition", T_STRING);
                           ("example", T_STRING); ("translation", T_STRING)] |}.

Definition imageRequest (word : string) : Request :=
  {| model := "gemini-2.5-flash-image";
     contents := [text_part ("A clear, iconic, cartoon-style illustration of a "
       ++ word ++ ", white background, educational style.")];
     config := ImageConfig "1:1" |}.

Definition pronunciationRequest (targetWord audioBase64 : string) : Request :=
  {| model := "gemini-2.5-flash";
     contents :=
       [ {| part_text := None;
            inlineData := Some {| mimeType := "audio/mp3";
                                  data := Some audioBase64 |} |};
         text_part ("The user is a French speaker trying to pronounce the English word "
           ++ dq ++ targetWord ++ dq ++ ". 
          Listen to the audio.
          1. Rate the pronunciation from 0 to 10.
          2. Give specific, helpful feedback in FRENCH. Explain which phonemes were wrong if any.
          3. Keep it short and encouraging.") ];
     config := JsonObject [("score", T_NUMBER); ("feedback", T_STRING)] |}.

Definition speechRequest (t : string) : Request :=
  {| model := "gemini-2.5-flash-preview-tts";
     contents := [text_part t];
     config := SpeechConfig "Kore" |}.

Record VocabCard : Type := mkVocabCard {
  word : Json;
  example : option Json;
  imageUrl : string;
  definition : string
}.

(** The first part carrying inline data gives the image URL. *)
Fixpoint first_inline (ps : list Part) : string :=
  match ps with
  | [] => ""
  | p :: rest =>
      match inlineData p with
      | Some d =>
          "data:image/png;base64," ++
          match data d with Some s => s | None => "undefined" end
      | None => first_inline rest
      end
  end.

(** [imgResponse.candidates && imgResponse.candidates[0].content.parts]
    and the loop under it. *)
Definition extract_image (r : Response) : Settled string :=
  match candidates r with
  | None => Resolved ""
  | Some [] => Rejected TypeError
  | Some (c :: _) =>
      match content c with
      | None => Rejected TypeError
      | Some ct =>
          match parts ct with
          | None => Resolved ""
          | Some ps => Resolved (first_inline ps)
          end
      end
  end.

(** [response.candidates?.[0]?.content?.parts?.[0]?.inlineData?.data] *)
Definition audio_of (r : Response) : option string :=
  match candidates r with
  | Some (c :: _) =>
      match content c with
      | Some ct =>
          match parts ct with
          | Some (p :: _) =>
              match inlineData p with
              | Some d => data d
              | None => None
              end
          | _ => None
          end
      | None => None
      end
  | _ => None
  end.

(** [base64Audio || null] *)
Definition or_null (v : option string) : option string :=
  match v with
  | Some s => if String.eqb s "" then None else Some s
  | None => None
  end.

Section Service.

(** The API behind [ai.models.generateContent]: the promise handed back to
    the [n]-th request issued. *)
Variable ai : nat -> Request -> Promise Response.

(** [JSON.parse]; [None] stands for its [SyntaxError]. *)
Variable JSON_parse : string -> option Json.

(** String conversion of an interpolated template value. *)
Variable to_string : option Json -> string.

Definition generateContent (req : Request) (w : World)
  : Promise Response * World :=
  (ai (length (issued w)) req,
   {| issued := issued w ++ [req]; console := console w |}).

Definition parse (s : string) : Settled Json :=
  match JSON_parse s with
  | Some j => Resolved j
  | None => Rejected SyntaxError
  end.

Definition generateVisualVocab (word : string) (w : World)
  : Settled VocabCard * World :=
  let '(defPromise, w1) := generateContent (defRequest word) w in
  let '(imagePromise, w2) := generateContent (imageRequest word) w1 in
  ((r <- promise_all2 defPromise imagePromise ;;
    let '(defResponse, imgResponse) := r in
    imageUrl <- extract_image imgResponse ;;
    textData <- parse (text_or (text defResponse) "{}") ;;
    tWord <- get_field textData "word" ;;
    tExample <- get_field textData "example" ;;
    tDefinition <- get_field textData "definition" ;;
    tTranslation <- get_field textData "translation" ;;
    Resolved
      {| word := match tWord with
                 | Some j => if truthy tWord then j else JStr word
                 | None => JStr word
                 end;
         example := tExample;
         imageUrl := imageUrl;
         definition := to_string tDefinition ++ " 

(Traduction: " ++ to_string tTranslation ++ ")" |})%settled,
   w2).

Definition checkPronunciation (targetWord audioBase64 : string) (w : World)
  : Settled Json * World :=
  let '(p, w1) := generateContent (pronunciationRequest targetWord audioBase64) w in
  ((response <- outcome p ;;
    if truthy_text (text response)
    then parse (text_or (text response) "")
    else Rejected (Error "Analysis failed"))%settled,
   w1).

Definition generateSpeech (t : string) (w : World)
  : Settled (option string) * World :=
  let '(p, w1) := generateContent (speechRequest t) w in
  match outcome p with
  | Resolved response => (Resolved (or_null (audio_of response)), w1)
  | Rejected e =>
      (Resolved None,
       {| issued := issued w1; console := console w1 ++ ["TTS Error"] |})
  end.

End Service.

End Gemini.

(** ** The platform's recorders *)

Module Media.

Import Js.

(** A Blob: an immutable byte payload. *)
Definition Blob : Type := list byte.

(** [MediaRecorder.state]; the views never pause. *)
Inductive RecordingState : Type := inactive | recording.

(** A platform recorder with its stream.  [captured] is what the [onstop]
    closure attached by the view holds on to. *)
Record MediaRecorder (Env : Type) : Type := mkRecorder {
  state : RecordingState;
  track_live : bool;
  undelivered : Blob;
  captured : Env
}.
Arguments mkRecorder {Env} _ _ _ _.
Arguments state {Env} _.
Arguments track_live {Env} _.
Arguments undelivered {Env} _.
Arguments captured {Env} _.

(** Events the platform has queued for the view's handlers. *)
Inductive Task : Type :=
  | DataAvailable (id : nat) (chunk : Blob)
  | Stop (id : nat).

(** What a view holds for recording: the platform's recorders (a recorder
    is known by its position), the two refs, the queued events, and every
    Blob assembled by an [onstop] handler so far. *)
Record Capture (Env : Type) : Type := mkCapture {
  recorders : list (MediaRecorder Env);
  mediaRecorderRef : option nat;
  chunksRef : list Blob;
  queue : list Task;
  blobs : list Blob
}.
Arguments mkCapture {Env} _ _ _ _ _.
Arguments recorders {Env} _.
Arguments mediaRecorderRef {Env} _.
Arguments chunksRef {Env} _.
Arguments queue {Env} _.
Arguments blobs {Env} _.

Section Recorder.

Context {Env : Type}.

(** Whether [stop()] on an inactive recorder throws [InvalidStateError]
    (the older platform behaviour) or returns silently. *)
Variable strict_stop : bool.

Definition idle : Capture Env :=
  {| recorders := []; mediaRecorderRef := None; chunksRef := [];
     queue := []; blobs := [] |}.

Definition is_recording (r : MediaRecorder Env) : bool :=
  match state r with
  | recording => true
  | inactive => false
  end.

(** The number of sessions the platform is recording right now. *)
Definition active_sessions (c : Capture Env) : nat :=
  length (List.filter is_recording (recorders c)).

(** [new MediaRecorder(stream)], the two ref assignments and
    [mediaRecorder.start()]. *)
Definition start_new (env : Env) (c : Capture Env) : Capture Env :=
  {| recorders := recorders c ++
       [ {| state := recording; track_live := true; undelivered := [];
            captured := env |} ];
     mediaRecorderRef := Some (length (recorders c));
     chunksRef := [];
     queue := queue c;
     blobs := blobs c |}.

(** The microphone delivers [chunk] to a recorder that is recording. *)
Definition gather (id : nat) (chunk : Blob) (c : Capture Env) : Capture Env :=
  match recorders c !! id with
  | Some r =>
      if is_recording r && track_live r then
        {| recorders :=
             <[ id := {| state := state r; track_live := track_live r;
                         undelivered := undelivered r ++ chunk;
                         captured := captured r |} ]> (recorders c);
           mediaRecorderRef := mediaRecorderRef c;
           chunksRef := chunksRef c;
           queue := queue c;
           blobs := blobs c |}
      else c
  | None => c
  end.

(** [recorder.stop()]: the recorder becomes inactive and the platform
    queues a [dataavailable] event with what was gathered, then a [stop]
    event. *)
Definition recorder_stop (id : nat) (c : Capture Env) : Settled (Capture Env) :=
  match recorders c !! id with
  | None => Rejected TypeError
  | Some r =>
      match state r with
      | inactive =>
          if strict_stop then Rejected (DOMException "InvalidStateError")
          else Resolved c
      | recording =>
          Resolved
            {| recorders :=
                 <[ id := {| state := inactive; track_live := track_live r;
                             undelivered := [];
                             captured := captured r |} ]> (recorders c);
               mediaRecorderRef := mediaRecorderRef c;
               chunksRef := chunksRef c;
               queue := queue c ++ [DataAvailable id (undelivered r); Stop id];
               blobs := blobs c |}
      end
  end.

(** [recorder.stream.getTracks().forEach(t => t.stop())] *)
Definition stop_tracks (id : nat) (c : Capture Env) : Capture Env :=
  match recorders c !! id with
  | Some r =>
      {| recorders :=
           <[ id := {| state := state r; track_live := false;
                       undelivered := undelivered r;
                       captured := captured r |} ]> (recorders c);
         mediaRecorderRef := mediaRecorderRef c;
         chunksRef := chunksRef c;
         queue := queue c;
         blobs := blobs c |}
  | None => c
  end.

(** [ondataavailable]: [if (e.data.size > 0) chunksRef.current.push(e.data)] *)
Definition ondataavailable (chunk : Blob) (c : Capture Env) : Capture Env :=
  if Nat.ltb 0 (length chunk) then
    {| recorders := recorders c;
       mediaRecorderRef := mediaRecorderRef c;
       chunksRef := chunksRef c ++ [chunk];
       queue := queue c;
       blobs := blobs c |}
  else c.

(** [new Blob(chunksRef.current, ...)]: the chunks flattened into one Blob,
    which is also recorded among the Blobs assembled. *)
Definition assemble (c : Capture Env) : Blob * Capture Env :=
  let blob := concat (chunksRef c) in
  (blob,
   {| recorders := recorders c;
      mediaRecorderRef := mediaRecorderRef c;
      chunksRef := chunksRef c;
      queue := queue c;
      blobs := blobs c ++ [blob] |}).

(** A recorder after [stop()] and the stopping of its tracks. *)
Definition stopped (r : MediaRecorder Env) : MediaRecorder Env :=
  {| state := inactive; track_live := false; undelivered := [];
     captured := captured r |}.

Definition set_queue (q : list Task) (c : Capture Env) : Capture Env :=
  {| recorders := recorders c;
     mediaRecorderRef := mediaRecorderRef c;
     chunksRef := chunksRef c;
     queue := q;
     blobs := blobs c |}.

End Recorder.

End Media.

(** Modelled from the spec: [blobToBase64] of [services/audioUtils] (not
    among the sources), the codec's [encode] applied to a Blob. *)
Definition blobToBase64 (blob : Media.Blob) : string := Base64.encode blob.

(** ** The visual dictionary view: [components/VisualDictView.tsx] *)

Module VisualDict.

Import Js Media.
Local Open Scope string_scope.

(** The state cells and refs the recording handlers touch. *)
Record View : Type := mkView {
  card : option Gemini.VocabCard;
  isRecording : bool;
  isAnalyzing : bool;
  pronunciationResult : option Json;
  capture : Capture (option Gemini.VocabCard);
  world : Gemini.World;
  alerts : list string
}.

Definition initial : View :=
  {| card := None; isRecording := false; isAnalyzing := false;
     pronunciationResult := None; capture := idle;
     world := {| Gemini.issued := []; Gemini.console := [] |};
     alerts := [] |}.

Definition set_capture (c : Capture (option Gemini.VocabCard)) (v : View) : View :=
  {| card := card v; isRecording := isRecording v;
     isAnalyzing := isAnalyzing v;
     pronunciationResult := pronunciationResult v;
     capture := c; world := world v; alerts := alerts v |}.

Definition log_error (msg : string) (w : Gemini.World) : Gemini.World :=
  {| Gemini.issued := Gemini.issued w;
     Gemini.console := Gemini.console w ++ [msg] |}.

Section Handlers.

Variable strict_stop : bool.
Variable ai : nat -> Gemini.Request -> Promise Gemini.Response.
Variable JSON_parse : string -> option Json.
Variable to_string : option Json -> string.

(** [startRecording], from the point where [getUserMedia] has settled with
    [mic].  The whole body sits in a [try]; the [catch] only logs. *)
Definition startRecording (mic : Settled unit) (v : View) : View * Settled unit :=
  match mic with
  | Resolved _ =>
      ({| card := card v;
          isRecording := true;
          isAnalyzing := isAnalyzing v;
          pronunciationResult := None;
          capture := start_new (card v) (capture v);
          world := world v;
          alerts := alerts v |},
       Resolved tt)
  | Rejected _ =>
      ({| card := card v; isRecording := isRecording v;
          isAnalyzing := isAnalyzing v;
          pronunciationResult := pronunciationResult v;
          capture := capture v;
          world := log_error "Mic error" (world v);
          alerts := alerts v |},
       Resolved tt)
  end.

(** [stopRecording]: everything happens under
    [if (mediaRecorderRef.current && isRecording)]. *)
Definition stopRecording (v : View) : View * Settled unit :=
  match mediaRecorderRef (capture v) with
  | Some id =>
      if isRecording v then
        match recorder_stop strict_stop id (capture v) with
        | Resolved c =>
            ({| card := card v;
                isRecording := false;
                isAnalyzing := isAnalyzing v;
                pronunciationResult := pronunciationResult v;
                capture := stop_tracks id c;
                world := world v;
                alerts := alerts v |},
             Resolved tt)
        | Rejected e => (v, Rejected e)
        end
      else (v, Resolved tt)
  | None => (v, Resolved tt)
  end.

(** The record button: [onClick={isRecording ? stopRecording : startRecording}] *)
Definition recordButton (mic : Settled unit) (v : View) : View * Settled unit :=
  if isRecording v then stopRecording v else startRecording mic v.

(** The [onstop] handler of recorder [id], run to completion. *)
Definition onstop (id : nat) (v : View) : View :=
  let '(blob, c) := assemble (capture v) in
  let base64 := blobToBase64 blob in
  match recorders c !! id with
  | Some {| captured := Some cd |} =>
      let '(r, w) :=
        Gemini.checkPronunciation ai JSON_parse
          (to_string (Some (Gemini.word cd))) base64 (world v) in
      match r with
      | Resolved result =>
          {| card := card v; isRecording := isRecording v;
             isAnalyzing := false;
             pronunciationResult := Some result;
             capture := c; world := w; alerts := alerts v |}
      | Rejected _ =>
          {| card := card v; isRecording := isRecording v;
             isAnalyzing := false;
             pronunciationResult := pronunciationResult v;
             capture := c;
             world := log_error "Analysis error" w;
             alerts := alerts v ++ ["Erreur lors de l'analyse."] |}
      end
  | _ =>
      {| card := card v; isRecording := isRecording v;
         isAnalyzing := false;
         pronunciationResult := pronunciationResult v;
         capture := c; world := world v; alerts := alerts v |}
  end.

(** One queued platform event handed to its handler. *)
Definition deliver (t : Task) (v : View) : View :=
  match t with
  | DataAvailable _ chunk => set_capture (ondataavailable chunk (capture v)) v
  | Stop id => onstop id v
  end.

(** The event loop runs every queued event, in order. *)
Definition drain (v : View) : View :=
  foldl (fun st t => deliver t st)
        (set_capture (set_queue [] (capture v)) v)
        (queue (capture v)).

End Handlers.

End VisualDict.

(** ** The chat view's recording and sending handlers *)

Module Chat.

Import Js Media.
Local Open Scope string_scope.

Inductive AttachmentType : Type := image | audio.

Record Attachment : Type := mkAttachment {
  type : AttachmentType;
  url : string;
  data : option string;
  mimeType : option string
}.

Inductive Role : Type := user | model.

(** [Date.now().toString()], or the fixed id of the greeting. *)
Inductive MessageId : Type := init | stamp (ms : nat).

Record Message : Type := mkMessage {
  id : MessageId;
  role : Role;
  text : string;
  attachment_of : option Attachment
}.

(** What [handleSend] reads from the render it was created in. *)
Record Closure : Type := mkClosure {
  c_chat : bool;
  c_input : string;
  c_attachment : option Attachment
}.

Record View : Type := mkView {
  chat : bool;
  messages : list Message;
  input : string;
  attachment : option Attachment;
  isLoading : bool;
  isRecording : bool;
  recordingDuration : nat;
  timerRef : option nat;
  intervals : list nat;
  handles : nat;
  capture : Capture Closure;
  console : list string;
  alerts : list string
}.

(** The view once mounted with no saved history: the chat session exists
    and the greeting is the only message. *)
Definition mounted : View :=
  {| chat := true;
     messages :=
       [ {| id := init; role := model;
            text := "Hello! I'm LinguaBot. You can send me text, photos, or voice messages to practice! How are you?";
            attachment_of := None |} ];
     input := ""; attachment := None; isLoading := false;
     isRecording := false; recordingDuration := 0;
     timerRef := None; intervals := []; handles := 0;
     capture := idle; console := []; alerts := [] |}.

Definition closure_of (v : View) : Closure :=
  {| c_chat := chat v; c_input := input v; c_attachment := attachment v |}.

(** A string holds the UTF-8 encoding of the JavaScript string.  What
    [String.prototype.trim] strips are the WhiteSpace and LineTerminator
    code points of ECMAScript: U+0009 to U+000D, U+0020, U+00A0, U+1680,
    U+2000 to U+200A, U+2028, U+2029, U+202F, U+205F, U+3000 and U+FEFF.
    The first six are one byte long. *)
Definition is_space (c : ascii) : bool :=
  let n := nat_of_ascii c in
  Nat.eqb n 32 || (Nat.leb 9 n && Nat.leb n 13).

(** U+00A0 is [C2 A0]. *)
Definition is_space2 (c1 c2 : ascii) : bool :=
  Nat.eqb (nat_of_ascii c1) 194 && Nat.eqb (nat_of_ascii c2) 160.

(** U+1680 is [E1 9A 80]; U+2000 to U+200A are [E2 80 80] to [E2 80 8A];
    U+2028, U+2029 and U+202F are [E2 80 A8], [E2 80 A9] and [E2 80 AF];
    U+205F is [E2 81 9F]; U+3000 is [E3 80 80]; U+FEFF is [EF BB BF]. *)
Definition is_space3 (c1 c2 c3 : ascii) : bool :=
  let a := nat_of_ascii c1 in
  let b := nat_of_ascii c2 in
  let c := nat_of_ascii c3 in
  (Nat.eqb a 225 && Nat.eqb b 154 && Nat.eqb c 128)
  || (Nat.eqb a 226 && Nat.eqb b 128
      && ((Nat.leb 128 c && Nat.leb c 138)
          || Nat.eqb c 168 || Nat.eqb c 169 || Nat.eqb c 175))
  || (Nat.eqb a 226 && Nat.eqb b 129 && Nat.eqb c 159)
  || (Nat.eqb a 227 && Nat.eqb b 128 && Nat.eqb c 128)
  || (Nat.eqb a 239 && Nat.eqb b 187 && Nat.eqb c 191).

(** The encodings of the code points [trim] strips, one string each. *)
Definition utf8 (bytes : list nat) : string :=
  string_of_list_ascii (map ascii_of_nat bytes).

Definition white_space : list string :=
  map utf8
    [ [9]; [10]; [11]; [12]; [13]; [32];              (* U+0009-000D, U+0020 *)
      [194; 160];                                     (* U+00A0 *)
      [225; 154; 128];                                (* U+1680 *)
      [226; 128; 128]; [226; 128; 129]; [226; 128; 130];
      [226; 128; 131]; [226; 128; 132]; [226; 128; 133];
      [226; 128; 134]; [226; 128; 135]; [226; 128; 136];
      [226; 128; 137]; [226; 128; 138];               (* U+2000-200A *)
      [226; 128; 168]; [226; 128; 169];               (* U+2028, U+2029 *)
      [226; 128; 175];                                (* U+202F *)
      [226; 129; 159];                                (* U+205F *)
      [227; 128; 128];                                (* U+3000 *)
      [239; 187; 191] ].                              (* U+FEFF *)

(** Whether [s.trim()] is a non-empty string: whether some code point of
    [s] is not one of those [trim] strips.  The encodings are read from the
    front; the first code point that is not stripped settles it. *)
Fixpoint nonblank (s : string) : bool :=
  match s with
  | EmptyString => false
  | String c1 s1 =>
      if is_space c1 then nonblank s1
      else
        match s1 with
        | EmptyString => true
        | String c2 s2 =>
            if is_space2 c1 c2 then nonblank s2
            else
              match s2 with
              | EmptyString => true
              | String c3 s3 =>
                  if is_space3 c1 c2 c3 then nonblank s3 else true
              end
        end
  end.

Section Handlers.

Variable strict_stop : bool.

(** [chat.sendMessage({ message: parts })], reduced to [result.text]. *)
Variable sendMessage : list Gemini.Part -> Settled (option string).

(** [URL.createObjectURL] *)
Variable createObjectURL : Blob -> string.

Definition startRecording (mic : Settled unit) (v : View) : View * Settled unit :=
  match mic with
  | Resolved _ =>
      let h := S (handles v) in
      ({| chat := chat v; messages := messages v; input := input v;
          attachment := attachment v; isLoading := isLoading v;
          isRecording := true;
          recordingDuration := 0;
          timerRef := Some h;
          intervals := intervals v ++ [h];
          handles := h;
          capture := start_new (closure_of v) (capture v);
          console := console v; alerts := alerts v |},
       Resolved tt)
  | Rejected _ =>
      ({| chat := chat v; messages := messages v; input := input v;
          attachment := attachment v; isLoading := isLoading v;
          isRecording := isRecording v;
          recordingDuration := recordingDuration v;
          timerRef := timerRef v; intervals := intervals v;
          handles := handles v; capture := capture v;
          console := console v ++ ["Error accessing microphone"];
          alerts := alerts v ++ ["Could not access microphone."] |},
       Resolved tt)
  end.

(** The first statement of [stopRecording]: both branches of the inner
    [if (shouldSend)] are written out as in the source. *)
Definition stop_recorder (shouldSend : bool) (v : View)
  : Settled (Capture Closure) :=
  match mediaRecorderRef (capture v) with
  | Some rid =>
      if isRecording v then
        (c <- (if shouldSend
               then recorder_stop strict_stop rid (capture v)
               else recorder_stop strict_stop rid (capture v)) ;;
         Resolved (stop_tracks rid c))%settled
      else Resolved (capture v)
  | None => Resolved (capture v)
  end.

(** [if (timerRef.current) { clearInterval(...); timerRef.current = null }] *)
Definition clear_timer (v : View) : option nat * list nat :=
  match timerRef v with
  | Some h =>
      if Nat.eqb h 0 then (timerRef v, intervals v)
      else (None, filter (fun k => k <> h) (intervals v))
  | None => (None, intervals v)
  end.

Definition stopRecording (shouldSend : bool) (v : View) : View * Settled unit :=
  match stop_recorder shouldSend v with
  | Resolved c =>
      ({| chat := chat v; messages := messages v; input := input v;
          attachment := attachment v; isLoading := isLoading v;
          isRecording := false;
          recordingDuration := recordingDuration v;
          timerRef := fst (clear_timer v);
          intervals := snd (clear_timer v);
          handles := handles v;
          capture := c;
          console := console v; alerts := alerts v |},
       Resolved tt)
  | Rejected e => (v, Rejected e)
  end.

Definition message_parts (textToSend : string) (a : option Attachment)
  : list Gemini.Part :=
  (if nonblank textToSend then [Gemini.text_part textToSend] else []) ++
  match a with
  | Some att =>
      if truthy_text (data att) then
        [ {| Gemini.part_text := None;
             Gemini.inlineData :=
               Some {| Gemini.mimeType := text_or (mimeType att) "image/jpeg";
                       Gemini.data := data att |} |} ]
      else []
  | None => []
  end.

(** [handleSend(overrideText, overrideAttachment)], run to completion;
    [now] and [later] are the two readings of the clock. *)
Definition handleSend (env : Closure) (overrideText : option string)
    (overrideAttachment : option Attachment) (now later : nat) (v : View)
  : View :=
  let textToSend :=
    match overrideText with Some t => t | None => c_input env end in
  let attachmentToSend :=
    match overrideAttachment with
    | Some a => Some a
    | None => c_attachment env
    end in
  if (negb (nonblank textToSend) && negb (bool_decide (is_Some attachmentToSend)))
     || negb (c_chat env)
  then v
  else
    let userMsg :=
      {| id := stamp now; role := user; text := textToSend;
         attachment_of := attachmentToSend |} in
    let reply :=
      match sendMessage (message_parts textToSend attachmentToSend) with
      | Resolved t =>
          {| id := stamp (later + 1); role := model;
             text := text_or t "I understood, but I don't have a text response.";
             attachment_of := None |}
      | Rejected _ =>
          {| id := stamp later; role := model;
             text := "Sorry, I encountered an error processing your message.";
             attachment_of := None |}
      end in
    {| chat := chat v;
       messages := messages v ++ [userMsg; reply];
       input := "";
       attachment := None;
       isLoading := false;
       isRecording := isRecording v;
       recordingDuration := recordingDuration v;
       timerRef := timerRef v; intervals := intervals v;
       handles := handles v; capture := capture v;
       console :=
         match sendMessage (message_parts textToSend attachmentToSend) with
         | Resolved _ => console v
         | Rejected _ => console v ++ ["Chat error"]
         end;
       alerts := alerts v |}.

Definition set_capture (c : Capture Closure) (v : View) : View :=
  {| chat := chat v; messages := messages v; input := input v;
     attachment := attachment v; isLoading := isLoading v;
     isRecording := isRecording v;
     recordingDuration := recordingDuration v;
     timerRef := timerRef v; intervals := intervals v;
     handles := handles v; capture := c;
     console := console v; alerts := alerts v |}.

(** The [onstop] handler of recorder [rid]: the recording becomes an audio
    attachment and is sent. *)
Definition onstop (rid : nat) (now later : nat) (v : View) : View :=
  let '(blob, c) := assemble (capture v) in
  let base64 := blobToBase64 blob in
  match recorders c !! rid with
  | Some r =>
      handleSend (captured r) None
        (Some {| type := audio; url := createObjectURL blob;
                 data := Some base64; mimeType := Some "audio/mp3" |})
        now later (set_capture c v)
  | None => set_capture c v
  end.

Definition deliver (now later : nat) (t : Task) (v : View) : View :=
  match t with
  | DataAvailable _ chunk => set_capture (ondataavailable chunk (capture v)) v
  | Stop rid => onstop rid now later v
  end.

Definition drain (now later : nat) (v : View) : View :=
  foldl (fun st t => deliver now later t st)
        (set_capture (set_queue [] (capture v)) v)
        (queue (capture v)).

End Handlers.

End Chat.

(** ** The lesson view's quiz bookkeeping *)

Module Lesson.

Local Open Scope string_scope.

Record QuizQuestion : Type := mkQuizQuestion {
  question : string;
  options : list string;
  correctAnswer : string;
  explanation : string
}.

Record GeneratedLesson : Type := mkGeneratedLesson {
  content : string;
  quiz : list QuizQuestion
}.

(** [id] is kept as the clock reading whose decimal text the source
    stores. *)
Record LessonResult : Type := mkLessonResult {
  id : nat;
  timestamp : nat;
  topic : string;
  level : string;
  score : nat;
  totalQuestions : nat;
  lessonData : GeneratedLesson;
  userAnswers : gmap nat string
}.

(** The state cells of the view and the browser's [localStorage]. *)
Record View : Type := mkView {
  selectedTopic : string;
  selectedLevel : string;
  lesson : option GeneratedLesson;
  quizAnswers : gmap nat string;
  showResults : bool;
  isSaved : bool;
  history : list LessonResult;
  localStorage : gmap string string
}.

(** The [forEach] that counts the questions answered correctly:
    [if (quizAnswers[idx] === q.correctAnswer) score++]. *)
Fixpoint count_correct (answers : gmap nat string) (idx score : nat)
    (qs : list QuizQuestion) : nat :=
  match qs with
  | [] => score
  | q :: rest =>
      count_correct answers (S idx)
        (if bool_decide (answers !! idx = Some (correctAnswer q))
         then S score else score)
        rest
  end.

Section Handlers.

(** [JSON.stringify] on a history. *)
Variable JSON_stringify : list LessonResult -> string.

(** [setQuizAnswers(prev => ({ ...prev, [qIndex]: option }))] *)
Definition handleAnswer (qIndex : nat) (option : string) (v : View) : View :=
  {| selectedTopic := selectedTopic v; selectedLevel := selectedLevel v;
     lesson := lesson v;
     quizAnswers := <[ qIndex := option ]> (quizAnswers v);
     showResults := showResults v; isSaved := isSaved v;
     history := history v; localStorage := localStorage v |}.

(** [checkAnswers]; [now_id] and [now_ts] are the two clock readings. *)
Definition checkAnswers (now_id now_ts : nat) (v : View) : View :=
  match lesson v with
  | Some l =>
      if negb (isSaved v) then
        let newResult :=
          {| id := now_id; timestamp := now_ts;
             topic := selectedTopic v; level := selectedLevel v;
             score := count_correct (quizAnswers v) 0 0 (quiz l);
             totalQuestions := length (quiz l);
             lessonData := l;
             userAnswers := quizAnswers v |} in
        let updatedHistory := newResult :: history v in
        {| selectedTopic := selectedTopic v; selectedLevel := selectedLevel v;
           lesson := lesson v; quizAnswers := quizAnswers v;
           showResults := true;
           isSaved := true;
           history := updatedHistory;
           localStorage :=
             <[ "lesson_history" := JSON_stringify updatedHistory ]>
               (localStorage v) |}
      else
        {| selectedTopic := selectedTopic v; selectedLevel := selectedLevel v;
           lesson := lesson v; quizAnswers := quizAnswers v;
           showResults := true; isSaved := isSaved v;
           history := history v; localStorage := localStorage v |}
  | None =>
      {| selectedTopic := selectedTopic v; selectedLevel := selectedLevel v;
         lesson := lesson v; quizAnswers := quizAnswers v;
         showResults := true; isSaved := isSaved v;
         history := history v; localStorage := localStorage v |}
  end.

Definition loadHistoryItem (item : LessonResult) (v : View) : View :=
  {| selectedTopic := topic item; selectedLevel := level item;
     lesson := Some (lessonData item);
     quizAnswers := userAnswers item;
     showResults := true; isSaved := true;
     history := history v; localStorage := localStorage v |}.

Definition deleteHistoryItem (target : nat) (v : View) : View :=
  let updated := filter (fun h => id h <> target) (history v) in
  {| selectedTopic := selectedTopic v; selectedLevel := selectedLevel v;
     lesson := lesson v; quizAnswers := quizAnswers v;
     showResults := showResults v; isSaved := isSaved v;
     history := updated;
     localStorage :=
       <[ "lesson_history" := JSON_stringify updated ]> (localStorage v) |}.

(** Any number of further calls, each with its own clock readings. *)
Definition checkAnswers_again (clocks : list (nat * nat)) (v : View) : View :=
  foldl (fun st t => checkAnswers (fst t) (snd t) st) v clocks.

End Handlers.

End Lesson.

(** ** Shapes of results and sample environments *)

Module Shapes.

Import Js.
Local Open Scope string_scope.

(** A pronunciation result of the announced shape: a record with a numeric
    [score] between 0 and 10 and a textual [feedback]. *)
Definition is_score_record (j : Json) : bool :=
  match j with
  | JObj fields =>
      match assoc "score" fields, assoc "feedback" fields with
      | Some (JNum q), Some (JStr _) => Qle_bool 0 q && Qle_bool q 10
      | _, _ => false
      end
  | _ => false
  end.

(** The ways [generateSpeech] can fail: the call is rejected, or the
    response carries no audio payload. *)
Definition speech_failed (p : Promise Gemini.Response) : Prop :=
  match outcome p with
  | Rejected _ => True
  | Resolved r => Gemini.or_null (Gemini.audio_of r) = None
  end.

End Shapes.

(** Concrete environments, used to run the model on examples. *)
Module Sample.

Import Js.
Local Open Scope string_scope.

(** A remote API that answers the [n]-th request with the [n]-th promise
    of a script, and rejects once the script is exhausted. *)
Definition scripted (script : list (Promise Gemini.Response))
  : nat -> Gemini.Request -> Promise Gemini.Response :=
  fun n _ =>
    match script !! n with
    | Some p => p
    | None => {| settles_at := 0; outcome := Rejected (RemoteFailure "offline") |}
    end.

(** [JSON.parse] restricted to the payloads listed in a table; any other
    text is taken as malformed. *)
Fixpoint parse_table (table : list (string * Json)) (s : string) : option Json :=
  match table with
  | [] => None
  | (t, j) :: rest => if String.eqb s t then Some j else parse_table rest s
  end.

(** String conversion on the values the examples interpolate. *)
Definition show (v : option Json) : string :=
  match v with
  | None => "undefined"
  | Some (JStr s) => s
  | Some JNull => "null"
  | Some (JBool true) => "true"
  | Some (JBool false) => "false"
  | Some _ => "[object Object]"
  end.

Definition text_response (t : string) : Gemini.Response :=
  {| Gemini.text := Some t; Gemini.candidates := None |}.

Definition resolved_at (tick : nat) (r : Gemini.Response) : Promise Gemini.Response :=
  {| settles_at := tick; outcome := Resolved r |}.

Definition rejected_at (tick : nat) (reason : string) : Promise Gemini.Response :=
  {| settles_at := tick; outcome := Rejected (RemoteFailure reason) |}.

(** The payload [{"score": 11, "feedback": "Bravo"}] and its parse. *)
Definition payload_11 : string :=
  "{" ++ dq ++ "score" ++ dq ++ ": 11, " ++ dq ++ "feedback" ++ dq ++ ": "
      ++ dq ++ "Bravo" ++ dq ++ "}".

Definition parsed_11 : Json :=
  JObj [("score", JNum 11); ("feedback", JStr "Bravo")].

(** The payload [{"score": 7, "feedback": "Bien"}] and its parse. *)
Definition payload_7 : string :=
  "{" ++ dq ++ "score" ++ dq ++ ": 7, " ++ dq ++ "feedback" ++ dq ++ ": "
      ++ dq ++ "Bien" ++ dq ++ "}".

Definition parsed_7 : Json :=
  JObj [("score", JNum 7); ("feedback", JStr "Bien")].

(** A definition payload for the word [cat] and its parse, and an image
    response carrying inline data. *)
Definition kv (k v : string) : string :=
  dq ++ k ++ dq ++ ": " ++ dq ++ v ++ dq.

Definition payload_cat : string :=
  "{" ++ kv "word" "cat" ++ ", " ++ kv "definition" "A small pet." ++ ", "
      ++ kv "example" "The cat sleeps." ++ ", " ++ kv "translation" "chat"
      ++ "}".

Definition parsed_cat : Json :=
  JObj [("word", JStr "cat"); ("definition", JStr "A small pet.");
        ("example", JStr "The cat sleeps."); ("translation", JStr "chat")].

Definition image_response : Gemini.Response :=
  {| Gemini.text := None;
     Gemini.candidates :=
       Some [ {| Gemini.content :=
                   Some {| Gemini.parts :=
                     Some [ {| Gemini.part_text := None;
                               Gemini.inlineData :=
                                 Some {| Gemini.mimeType := "image/png";
                                         Gemini.data := Some "iVBORw0KGgo=" |} |} ] |} |} ] |}.

Definition payloads : list (string * Json) :=
  [(payload_11, parsed_11); (payload_7, parsed_7); (payload_cat, parsed_cat);
   ("{}", JObj [])].

Definition empty_world : Gemini.World :=
  {| Gemini.issued := []; Gemini.console := [] |}.

(** A chat session that always answers, and a fixed object URL. *)
Definition always_replies : list Gemini.Part -> Settled (option string) :=
  fun _ => Resolved (Some "Nice!").

Definition object_url : Media.Blob -> string := fun _ => "blob:recording".

(** A two-question lesson, answered half right, not yet saved. *)
Definition two_questions : Lesson.GeneratedLesson :=
  {| Lesson.content := "### Introduction";
     Lesson.quiz :=
       [ {| Lesson.question := "Hello means?";
            Lesson.options := ["Bonjour"; "Merci"];
            Lesson.correctAnswer := "Bonjour";
            Lesson.explanation := "(Hello = Bonjour)" |};
         {| Lesson.question := "Thanks means?";
            Lesson.options := ["Bonjour"; "Merci"];
            Lesson.correctAnswer := "Merci";
            Lesson.explanation := "(Thanks = Merci)" |} ] |}.

Definition answered : Lesson.View :=
  {| Lesson.selectedTopic := "Travel Basics";
     Lesson.selectedLevel := "Beginner";
     Lesson.lesson := Some two_questions;
     Lesson.quizAnswers := <[ 1%nat := "Bonjour" ]> (<[ 0%nat := "Bonjour" ]> ∅);
     Lesson.showResults := false;
     Lesson.isSaved := false;
     Lesson.history := [];
     Lesson.localStorage := ∅ |}.

(** A stand-in for [JSON.stringify]: the topics of the records, in order. *)
Definition stringify (h : list Lesson.LessonResult) : string :=
  String.concat ";" (map Lesson.topic h).

End Sample.

(** ** Lesson generation: [generateLessonPlan] *)

Module LessonService.

Import Js.
Local Open Scope string_scope.

(** The response schema of the lesson request. *)
#[local] Unset Elimination Schemes.
Inductive Schema : Type :=
  | STRING (description : option string)
  | ARRAY (items : Schema)
  | OBJECT (properties : list (string * Schema)) (required : list string).
#[local] Set Elimination Schemes.

Record Request : Type := mkRequest {
  model : string;
  contents : string;
  responseMimeType : string;
  responseSchema : Schema
}.

Definition lessonPrompt (topic level : string) : string :=
  "Create a structured English lesson about " ++ dq ++ topic ++ dq ++ " for a " ++ dq ++ level ++ dq ++ " level student (French speaker).
  
  STRICT STRUCTURE & FORMATTING (Markdown):
  - The output MUST be valid Markdown.
  - **CRITICAL**: You MUST insert a BLANK LINE (double enter) between every paragraph, every list item, and every header. Do not clump text together.
  - Use '###' for section headers.
  
  REQUIRED SECTIONS:
  1. ### Introduction
     - A warm welcome and brief intro to the topic.
  
  2. ### Key Vocabulary
     - List 5-7 important words related to the topic.
     - Format: **English Word** : Definition (Translation in parentheses).
  
  3. ### Useful Expressions
     - List 3-5 common phrases or sentences.
     - Format: - " ++ dq ++ "English phrase" ++ dq ++ " (French translation in parentheses).
  
  4. ### Context Practice
     - A short reading passage or dialogue using the vocabulary above.
  
  LANGUAGE RULES:
  - Target language: English.
  - Support language: French.
  - RULE: Every English sentence, phrase, or key term in the explanations must be immediately followed by its French translation or explanation in parentheses. 
    Example: " ++ dq ++ "The sun is bright. (Le soleil est brillant.)" ++ dq ++ "
  
  QUIZ GENERATION:
  - Generate 3 multiple-choice questions based on the content.
  - The questions must be in English.
  - The explanations (why an answer is correct) must be in French (in parentheses).
  ".

Definition lessonRequest (topic level : string) : Request :=
  {| model := "gemini-2.5-flash";
     contents := lessonPrompt topic level;
     responseMimeType := "application/json";
     responseSchema :=
       OBJECT
         [("content",
           STRING (Some "The lesson content formatted in clean Markdown with clear spacing."));
          ("quiz",
           ARRAY
             (OBJECT
                [("question", STRING None);
                 ("options", ARRAY (STRING None));
                 ("correctAnswer", STRING (Some "The correct option text"));
                 ("explanation",
                  STRING (Some "Why this is the correct answer (In French, inside parentheses)"))]
                ["question"; "options"; "correctAnswer"; "explanation"]))]
         ["content"; "quiz"] |}.

Section Service.

(** The API behind [ai.models.generateContent], as for the other wrappers:
    the promise handed back to the [n]-th request. *)
Variable ai : nat -> Request -> Promise Gemini.Response.

Variable JSON_parse : string -> option Json.

(** [generateLessonPlan(topic, level)] with the requests issued so far;
    the parsed text is handed back under the [GeneratedLesson] type without
    a check. *)
Definition generateLessonPlan (topic level : string) (issued : list Request)
  : Settled Json * list Request :=
  let req := lessonRequest topic level in
  ((response <- outcome (ai (length issued) req) ;;
    if truthy_text (Gemini.text response)
    then Gemini.parse JSON_parse (text_or (Gemini.text response) "")
    else Rejected (Error "Failed to generate lesson"))%settled,
   (issued ++ [req])%list).

End Service.

End LessonService.

(** ** The lesson view around its quiz: mounting and generating *)

Module LessonPage.

Import Js.
Local Open Scope string_scope.

Definition TOPICS : list string :=
  ["Travel Basics"; "Job Interview"; "Ordering Food"; "Grammar: Past Tense";
   "Making Friends"].

Definition LEVELS : list string := ["Beginner"; "Intermediate"; "Advanced"].

Inductive Tab : Type := create | history_tab.

(** The remaining state cells of the lesson view, around the ones of
    [Lesson.View]. *)
Record Page : Type := mkPage {
  view : Lesson.View;
  activeTab : Tab;
  isLoading : bool;
  console : list string;
  alerts : list string
}.

Section Handlers.

(** [JSON.parse] on a stored history; [None] stands for its exception. *)
Variable JSON_parse : string -> option (list Lesson.LessonResult).

Variable JSON_stringify : list Lesson.LessonResult -> string.

(** The first render followed by the mount effect, which reads
    [lesson_history] from the storage found. *)
Definition mount (storage : gmap string string) : Page :=
  let saved := storage !! "lesson_history" in
  let loaded :=
    if truthy_text saved then JSON_parse (text_or saved "") else Some [] in
  {| view :=
       {| Lesson.selectedTopic := default "" (TOPICS !! 0%nat);
          Lesson.selectedLevel := default "" (LEVELS !! 0%nat);
          Lesson.lesson := None;
          Lesson.quizAnswers := ∅;
          Lesson.showResults := false;
          Lesson.isSaved := false;
          Lesson.history := default [] loaded;
          Lesson.localStorage := storage |};
     activeTab := create;
     isLoading := false;
     console :=
       match loaded with
       | Some _ => []
       | None => ["Failed to parse history"]
       end;
     alerts := [] |}.

(** [handleGenerate], run to completion; [data] is how
    [generateLessonPlan] settled. *)
Definition handleGenerate (data : Settled Lesson.GeneratedLesson) (p : Page)
  : Page :=
  let v := view p in
  {| view :=
       {| Lesson.selectedTopic := Lesson.selectedTopic v;
          Lesson.selectedLevel := Lesson.selectedLevel v;
          Lesson.lesson :=
            match data with
            | Resolved d => Some d
            | Rejected _ => None
            end;
          Lesson.quizAnswers := ∅;
          Lesson.showResults := false;
          Lesson.isSaved := false;
          Lesson.history := Lesson.history v;
          Lesson.localStorage := Lesson.localStorage v |};
     activeTab := activeTab p;
     isLoading := false;
     console := console p;
     alerts :=
       match data with
       | Resolved _ => alerts p
       | Rejected _ => alerts p ++ ["Error generating lesson. Please try again."]
       end |}.

Definition on_view (f : Lesson.View -> Lesson.View) (p : Page) : Page :=
  {| view := f (view p); activeTab := activeTab p; isLoading := isLoading p;
     console := console p; alerts := alerts p |}.

(** [loadHistoryItem] with its last statement, [setActiveTab('create')]. *)
Definition loadHistoryItem (item : Lesson.LessonResult) (p : Page) : Page :=
  {| view := Lesson.loadHistoryItem item (view p);
     activeTab := create; isLoading := isLoading p;
     console := console p; alerts := alerts p |}.

(** The answer buttons of question [qIndex] exist for its options and act
    only until the results are shown. *)
Definition can_answer (qIndex : nat) (option : string) (v : Lesson.View) : bool :=
  match Lesson.lesson v with
  | Some l =>
      negb (Lesson.showResults v) &&
      match Lesson.quiz l !! qIndex with
      | Some q => bool_decide (option ∈ Lesson.options q)
      | None => false
      end
  | None => false
  end.

(** The two buttons that call [checkAnswers]: the check button, shown once
    every question has an answer and until the results are shown, and the
    save button, shown while results are shown but not saved. *)
Definition can_check (v : Lesson.View) : bool :=
  match Lesson.lesson v with
  | Some l =>
      (negb (Lesson.showResults v)
       && Nat.eqb (size (Lesson.quizAnswers v)) (length (Lesson.quiz l)))
      || (Lesson.showResults v && negb (Lesson.isSaved v))
  | None => false
  end.

Definition on_tab (t : Tab) (p : Page) : bool :=
  match activeTab p, t with
  | create, create => true
  | history_tab, history_tab => true
  | _, _ => false
  end.

(** What the user can do on the page. *)
Inductive Action : Type :=
  | Generate (data : Settled Lesson.GeneratedLesson)
  | SelectTopic (topic : string)
  | SelectLevel (level : string)
  | Answer (qIndex : nat) (option : string)
  | CheckAnswers (now_id now_ts : nat)
  | LoadHistoryItem (row : nat)
  | DeleteHistoryItem (row : nat)
  | SetActiveTab (tab : Tab).

Definition select (topic level : string) (v : Lesson.View) : Lesson.View :=
  {| Lesson.selectedTopic := topic; Lesson.selectedLevel := level;
     Lesson.lesson := Lesson.lesson v;
     Lesson.quizAnswers := Lesson.quizAnswers v;
     Lesson.showResults := Lesson.showResults v;
     Lesson.isSaved := Lesson.isSaved v;
     Lesson.history := Lesson.history v;
     Lesson.localStorage := Lesson.localStorage v |}.

(** One action, taken where the control for it is on the page: the lesson
    controls on the create tab, the rows of the history (known by their
    position) on the history tab. *)
Definition act (a : Action) (p : Page) : Page :=
  match a with
  | Generate data =>
      if on_tab create p && negb (isLoading p) then handleGenerate data p else p
  | SelectTopic topic =>
      if on_tab create p && bool_decide (topic ∈ TOPICS)
      then on_view (select topic (Lesson.selectedLevel (view p))) p else p
  | SelectLevel level =>
      if on_tab create p && bool_decide (level ∈ LEVELS)
      then on_view (select (Lesson.selectedTopic (view p)) level) p else p
  | Answer qIndex option =>
      if on_tab create p && can_answer qIndex option (view p)
      then on_view (Lesson.handleAnswer qIndex option) p else p
  | CheckAnswers now_id now_ts =>
      if on_tab create p && can_check (view p)
      then on_view (Lesson.checkAnswers JSON_stringify now_id now_ts) p else p
  | LoadHistoryItem row =>
      match Lesson.history (view p) !! row with
      | Some item => if on_tab history_tab p then loadHistoryItem item p else p
      | None => p
      end
  | DeleteHistoryItem row =>
      match Lesson.history (view p) !! row with
      | Some item =>
          if on_tab history_tab p
          then on_view (Lesson.deleteHistoryItem JSON_stringify (Lesson.id item)) p
          else p
      | None => p
      end
  | SetActiveTab tab =>
      {| view := view p; activeTab := tab; isLoading := isLoading p;
         console := console p; alerts := alerts p |}
  end.

Definition run (actions : list Action) (p : Page) : Page :=
  foldl (fun st a => act a st) p actions.

End Handlers.

End LessonPage.

(** ** The visual dictionary view around its recorder: submitting, speaking *)

Module VisualDictPage.

Import Js Media.
Local Open Scope string_scope.

(** The remaining state cells of the view, around the ones of
    [VisualDict.View]; [played] lists the buffers handed to
    [playAudioBuffer]. *)
Record Page : Type := mkPage {
  word : string;
  isLoading : bool;
  isTTSLoading : bool;
  played : list PCM.SampleBuffer;
  view : VisualDict.View
}.

Definition initial : Page :=
  {| word := ""; isLoading := false; isTTSLoading := false; played := [];
     view := VisualDict.initial |}.

(** What [console.error(e)] prints of an exception. *)
Definition describe (e : Exn) : string :=
  match e with
  | RemoteFailure reason => reason
  | TypeError => "TypeError"
  | SyntaxError => "SyntaxError"
  | Error msg => "Error: " ++ msg
  | DOMException name => name
  end.

Definition describe_kind (e : ErrorKind) : string :=
  match e with
  | FormatError => "FormatError"
  | DecodeError => "DecodeError"
  | DeviceError => "DeviceError"
  | StateError => "StateError"
  | RemoteError => "RemoteError"
  end.

Definition with_view (v : VisualDict.View) (p : Page) : Page :=
  {| word := word p; isLoading := isLoading p;
     isTTSLoading := isTTSLoading p; played := played p; view := v |}.

Section Handlers.

Variable strict_stop : bool.
Variable ai : nat -> Gemini.Request -> Promise Gemini.Response.
Variable JSON_parse : string -> option Json.
Variable to_string : option Json -> string.
(** What the decoder of [services/audioUtils] does with empty input. *)
Variable empty_input : PCM.EmptyInput.

(** [handleSubmit], run to completion. *)
Definition handleSubmit (p : Page) : Page :=
  if negb (Chat.nonblank (word p)) then p
  else
    let v := view p in
    let '(r, w) :=
      Gemini.generateVisualVocab ai JSON_parse to_string (word p)
        (VisualDict.world v) in
    {| word := word p;
       isLoading := false;
       isTTSLoading := isTTSLoading p;
       played := played p;
       view :=
         {| VisualDict.card :=
              match r with
              | Resolved result => Some result
              | Rejected _ => None
              end;
            VisualDict.isRecording := VisualDict.isRecording v;
            VisualDict.isAnalyzing := VisualDict.isAnalyzing v;
            VisualDict.pronunciationResult := None;
            VisualDict.capture := VisualDict.capture v;
            VisualDict.world :=
              match r with
              | Resolved _ => w
              | Rejected e => VisualDict.log_error (describe e) w
              end;
            VisualDict.alerts :=
              match r with
              | Resolved _ => VisualDict.alerts v
              | Rejected _ =>
                  VisualDict.alerts v ++ ["Failed to generate visual card."]
              end |} |}.

(** The body of [if (base64)] in [handleSpeak]: decode, decode the PCM at
    24000 Hz on one channel, play. *)
Definition speak (base64 : string) : result PCM.SampleBuffer :=
  match Base64.decode base64 with
  | Ok bytes => PCM.decodeAudioData empty_input bytes 24000 1
  | Err e => Err e
  end.

(** [handleSpeak], run to completion; whatever is thrown inside is caught
    and logged. *)
Definition handleSpeak (p : Page) : Page :=
  let v := view p in
  match VisualDict.card v with
  | None => p
  | Some cd =>
      let '(r, w) :=
        Gemini.generateSpeech ai (to_string (Some (Gemini.word cd)))
          (VisualDict.world v) in
      let '(played', w') :=
        match r with
        | Resolved base64 =>
            if truthy_text base64 then
              match speak (text_or base64 "") with
              | Ok audioBuffer => ((played p ++ [audioBuffer])%list, w)
              | Err e => (played p, VisualDict.log_error (describe_kind e) w)
              end
            else (played p, w)
        | Rejected e => (played p, VisualDict.log_error (describe e) w)
        end in
      {| word := word p;
         isLoading := isLoading p;
         isTTSLoading := false;
         played := played';
         view :=
           {| VisualDict.card := VisualDict.card v;
              VisualDict.isRecording := VisualDict.isRecording v;
              VisualDict.isAnalyzing := VisualDict.isAnalyzing v;
              VisualDict.pronunciationResult := VisualDict.pronunciationResult v;
              VisualDict.capture := VisualDict.capture v;
              VisualDict.world := w';
              VisualDict.alerts := VisualDict.alerts v |} |}
  end.

(** What happens to the page: the user types a word, submits, presses the
    speaker or the record button (the two buttons exist only while a card
    is shown), the microphone delivers data to a recorder, the event loop
    runs the queued recorder events. *)
Inductive Event : Type :=
  | TypeWord (w : string)
  | Submit
  | ClickSpeak
  | ClickRecord (mic : Settled unit)
  | Microphone (rid : nat) (chunk : Blob)
  | EventLoop.

Definition card_shown (p : Page) : bool :=
  bool_decide (is_Some (VisualDict.card (view p))) && negb (isLoading p).

Definition step (e : Event) (p : Page) : Page :=
  match e with
  | TypeWord w =>
      {| word := w; isLoading := isLoading p;
         isTTSLoading := isTTSLoading p; played := played p;
         view := view p |}
  | Submit => handleSubmit p
  | ClickSpeak =>
      if card_shown p && negb (isTTSLoading p) then handleSpeak p else p
  | ClickRecord mic =>
      if card_shown p
      then with_view (fst (VisualDict.recordButton strict_stop mic (view p))) p
      else p
  | Microphone rid chunk =>
      with_view
        (VisualDict.set_capture
           (gather rid chunk (VisualDict.capture (view p))) (view p)) p
  | EventLoop =>
      with_view (VisualDict.drain ai JSON_parse to_string (view p)) p
  end.

Definition run (events : list Event) (p : Page) : Page :=
  foldl (fun st e => step e st) p events.

End Handlers.

End VisualDictPage.

(** ** The chat view around its recorder: mounting, saving, the buttons *)

Module ChatPage.

Import Js Media Chat.
Local Open Scope string_scope.

(** [formatDuration(sec)] on a whole number of seconds. *)
Definition formatDuration (sec : nat) : string :=
  let m := Nat.div sec 60 in
  let s := Nat.modulo sec 60 in
  pretty m ++ ":" ++ (if Nat.ltb s 10 then "0" else "") ++ pretty s.

Definition is_init (i : MessageId) : bool :=
  match i with
  | init => true
  | stamp _ => false
  end.

(** The mount effect's [parsed.map]: the preview URL of an attachment is
    rebuilt from its data. *)
Definition restore_url (m : Message) : Message :=
  match attachment_of m with
  | Some a =>
      match data a, mimeType a with
      | Some d, Some mt =>
          if negb (String.eqb d "") && negb (String.eqb mt "") then
            {| id := id m; role := role m; text := text m;
               attachment_of :=
                 Some {| type := type a;
                         url := "data:" ++ mt ++ ";base64," ++ d;
                         data := data a; mimeType := mimeType a |} |}
          else m
      | _, _ => m
      end
  | None => m
  end.

(** One entry of the history given to the chat session: the text, and the
    image of an image attachment; recordings are left out. *)
Definition history_content (m : Message) : Role * list Gemini.Part :=
  (role m,
   ((if String.eqb (text m) "" then [] else [Gemini.text_part (text m)]) ++
    match attachment_of m with
    | Some a =>
        match type a with
        | image =>
            if truthy_text (data a) then
              [ {| Gemini.part_text := None;
                   Gemini.inlineData :=
                     Some {| Gemini.mimeType := text_or (mimeType a) "image/jpeg";
                             Gemini.data := data a |} |} ]
            else []
        | audio => []
        end
    | None => []
    end)%list).

Definition chatHistory (ms : list Message) : list (Role * list Gemini.Part) :=
  map history_content (List.filter (fun m => negb (is_init (id m))) ms).

Definition greeting : Message :=
  {| id := init; role := model;
     text := "Hello! I'm LinguaBot. You can send me text, photos, or voice messages to practice! How are you?";
     attachment_of := None |}.

Section Handlers.

Variable strict_stop : bool.
Variable sendMessage : list Gemini.Part -> Settled (option string).
Variable createObjectURL : Blob -> string.

(** [JSON.parse] on stored messages; [None] stands for its exception. *)
Variable JSON_parse : string -> option (list Message).

Variable JSON_stringify : list Message -> string.

(** What the mount effect reads back from [chat_history]. *)
Definition loaded (saved : option string) : option (list Message) :=
  if truthy_text saved then
    match JSON_parse (text_or saved "") with
    | Some parsed => Some (map restore_url parsed)
    | None => None
    end
  else Some [].

(** The view after the mount effect, and the history with which the chat
    session is created. *)
Definition mount (saved : option string)
  : View * list (Role * list Gemini.Part) :=
  let initialMessages := default [] (loaded saved) in
  ({| chat := true;
      messages :=
        match initialMessages with
        | [] => [greeting]
        | _ :: _ => initialMessages
        end;
      input := ""; attachment := None; isLoading := false;
      isRecording := false; recordingDuration := 0;
      timerRef := None; intervals := []; handles := 0;
      capture := idle;
      console :=
        match loaded saved with
        | Some _ => []
        | None => ["Failed to parse chat history"]
        end;
      alerts := [] |},
   chatHistory initialMessages).


(** What happens to the view: typing, the action button (send when there
    is something to send, else the microphone toggle), the cancel button of
    the recording bar, a tick of an interval timer, data from the
    microphone, the event loop running the queued recorder events.  The
    text area and the attachment controls are replaced by the recording
    bar while the view is recording. *)
Inductive Event : Type :=
  | TypeInput (s : string)
  | PressEnter (now later : nat)
  | SelectFile (file : Blob) (fileType : string)
  | ClearAttachment
  | ClickAction (mic : Settled unit) (now later : nat)
  | ClickCancel
  | Tick (handle : nat)
  | Microphone (rid : nat) (chunk : Blob)
  | EventLoop (now later : nat).

Definition set_input (s : string) (v : View) : View :=
  {| chat := chat v; messages := messages v; input := s;
     attachment := attachment v; isLoading := isLoading v;
     isRecording := isRecording v;
     recordingDuration := recordingDuration v;
     timerRef := timerRef v; intervals := intervals v;
     handles := handles v; capture := capture v;
     console := console v; alerts := alerts v |}.

Definition set_attachment (a : option Attachment) (v : View) : View :=
  {| chat := chat v; messages := messages v; input := input v;
     attachment := a; isLoading := isLoading v;
     isRecording := isRecording v;
     recordingDuration := recordingDuration v;
     timerRef := timerRef v; intervals := intervals v;
     handles := handles v; capture := capture v;
     console := console v; alerts := alerts v |}.

Definition tick (v : View) : View :=
  {| chat := chat v; messages := messages v; input := input v;
     attachment := attachment v; isLoading := isLoading v;
     isRecording := isRecording v;
     recordingDuration := S (recordingDuration v);
     timerRef := timerRef v; intervals := intervals v;
     handles := handles v; capture := capture v;
     console := console v; alerts := alerts v |}.

Definition step (e : Event) (v : View) : View :=
  match e with
  | TypeInput s => if isRecording v then v else set_input s v
  | PressEnter now later =>
      if isRecording v then v
      else handleSend sendMessage (closure_of v) None None now later v
  | SelectFile file fileType =>
      if isRecording v then v
      else
        set_attachment
          (Some {| type := image; url := createObjectURL file;
                   data := Some (blobToBase64 file);
                   mimeType := Some fileType |}) v
  | ClearAttachment =>
      if bool_decide (is_Some (attachment v)) && negb (isRecording v)
      then set_attachment None v else v
  | ClickAction mic now later =>
      if nonblank (input v) || bool_decide (is_Some (attachment v)) then
        if isLoading v then v
        else handleSend sendMessage (closure_of v) None None now later v
      else if isRecording v then fst (stopRecording strict_stop true v)
      else fst (startRecording mic v)
  | ClickCancel =>
      if isRecording v then fst (stopRecording strict_stop false v) else v
  | Tick h =>
      if bool_decide (h ∈ intervals v) then tick v else v
  | Microphone rid chunk => set_capture (gather rid chunk (capture v)) v
  | EventLoop now later => drain sendMessage createObjectURL now later v
  end.

Definition run (events : list Event) (v : View) : View :=
  foldl (fun st e => step e st) v events.

End Handlers.

End ChatPage.

(** ** What it means for the recorders to be in order *)

Module Safety.

Import Media.

(** A recorder that is inactive and whose microphone track is stopped. *)
Definition released {Env : Type} (r : MediaRecorder Env) : Prop :=
  state r = inactive /\ track_live r = false.

(** Every recorder the platform holds is released. *)
Definition none_recording {Env : Type} (c : Capture Env) : Prop :=
  forall j r, recorders c !! j = Some r -> released r.

(** Recorder [rid] is recording from a live track and every other recorder
    is released. *)
Definition one_recording {Env : Type} (c : Capture Env) (rid : nat) : Prop :=
  (exists r, recorders c !! rid = Some r
             /\ state r = recording /\ track_live r = true)
  /\ forall j r, j <> rid -> recorders c !! j = Some r -> released r.

(** The recorders agree with the recording flag of the view: while it is
    set the recorder behind [mediaRecorderRef] is the only one recording,
    and while it is not set nothing records and no microphone is held. *)
Definition in_order {Env : Type} (isRecording : bool) (c : Capture Env) : Prop :=
  if isRecording
  then exists rid, mediaRecorderRef c = Some rid /\ one_recording c rid
  else none_recording c.

(** The interval timers of the chat view agree with its recording flag:
    one timer, the one behind [timerRef], while recording, none otherwise. *)
Definition timers_in_order (v : Chat.View) : Prop :=
  if Chat.isRecording v
  then exists h, Chat.timerRef v = Some h /\ h <> 0
                 /\ Chat.intervals v = [h]
  else Chat.intervals v = [].

End Safety.

(** Further concrete pages and sessions, used to run the model. *)
Module Scenario.

Import Js Sample.
Local Open Scope string_scope.

(** An image response whose candidate list is empty. *)
Definition no_candidates : Gemini.Response :=
  {| Gemini.text := None; Gemini.candidates := Some [] |}.

(** The card for [cat], and a page of the visual dictionary showing it. *)
Definition cat_card : Gemini.VocabCard :=
  {| Gemini.word := JStr "cat";
     Gemini.example := Some (JStr "The cat sleeps.");
     Gemini.imageUrl := "";
     Gemini.definition := "A small pet." |}.

Definition cat_page : VisualDictPage.Page :=
  {| VisualDictPage.word := "cat";
     VisualDictPage.isLoading := false;
     VisualDictPage.isTTSLoading := false;
     VisualDictPage.played := [];
     VisualDictPage.view :=
       {| VisualDict.card := Some cat_card;
          VisualDict.isRecording := false;
          VisualDict.isAnalyzing := false;
          VisualDict.pronunciationResult := None;
          VisualDict.capture := Media.idle;
          VisualDict.world := empty_world;
          VisualDict.alerts := [] |} |}.

(** A speech response carrying the Base64 text of four PCM bytes. *)
Definition speech_response : Gemini.Response :=
  {| Gemini.text := None;
     Gemini.candidates :=
       Some [ {| Gemini.content :=
                   Some {| Gemini.parts :=
                     Some [ {| Gemini.part_text := None;
                               Gemini.inlineData :=
                                 Some {| Gemini.mimeType := "audio/pcm";
                                         Gemini.data := Some "AIAA/w==" |} |} ] |} |} ] |}.

(** The lesson page on the sample lesson, its storage holding the
    serialization of its empty history. *)
Definition lesson_page : LessonPage.Page :=
  {| LessonPage.view :=
       {| Lesson.selectedTopic := "Travel Basics";
          Lesson.selectedLevel := "Beginner";
          Lesson.lesson := Some two_questions;
          Lesson.quizAnswers := ∅;
          Lesson.showResults := false;
          Lesson.isSaved := false;
          Lesson.history := [];
          Lesson.localStorage := {[ "lesson_history" := stringify [] ]} |};
     LessonPage.activeTab := LessonPage.create;
     LessonPage.isLoading := false;
     LessonPage.console := [];
     LessonPage.alerts := [] |}.

(** A session of the lesson page: both questions answered, checked, then
    the record deleted from the history tab. *)
Definition lesson_session : list LessonPage.Action :=
  [ LessonPage.Answer 0 "Bonjour"; LessonPage.Answer 1 "Bonjour";
    LessonPage.CheckAnswers 1000 1001;
    LessonPage.SetActiveTab LessonPage.history_tab;
    LessonPage.DeleteHistoryItem 0 ].




(** A lesson request service that answers every request with one text. *)
Definition lesson_api (t : string)
  : nat -> LessonService.Request -> Promise Gemini.Response :=
  fun _ _ => resolved_at 1 (text_response t).

End Scenario.

(** * Properties *)

(** ** The Base64 codec *)

Section Base64Facts.

Import Base64.
Local Open Scope N_scope.

Lemma small_N_cases (P : N -> Prop) (bound : nat) :
  (forall k : nat, (k < bound)%nat -> P (N.of_nat k)) ->
  forall n, n < N.of_nat bound -> P n.
Proof.
  intros HP n Hn. rewrite <- (N2Nat.id n). apply HP. lia.
Qed.

Lemma sextet_char_roundtrip n :
  n < 64 -> char_to_sextet (sextet_to_char n) = Some n.
Proof.
  revert n. apply (small_N_cases _ 64). intros k Hk.
  do 64 (destruct k as [|k]; [vm_compute; reflexivity|]). lia.
Qed.

Lemma sextet_char_not_pad n :
  n < 64 -> Ascii.eqb (sextet_to_char n) pad = false.
Proof.
  revert n. apply (small_N_cases _ 64). intros k Hk.
  do 64 (destruct k as [|k]; [vm_compute; reflexivity|]). lia.
Qed.

Lemma byte_of_to_N b : byte_of_N (Byte.to_N b) = b.
Proof. unfold byte_of_N. now rewrite Byte.of_to_N. Qed.

Lemma byte_lt_256 b : Byte.to_N b < 256.
Proof. pose proof (Byte.to_N_bounded b). lia. Qed.

Lemma sextet_lt_64 k a b c :
  a < 256 -> b < 256 -> c < 256 -> sextet k (group24 a b c) < 64.
Proof.
  intros Ha Hb Hc. unfold sextet, group24.
  destruct k as [|[p|p|]]; try destruct p; zify; euclid.
Qed.

Lemma regroup_sextets a b c :
  a < 256 -> b < 256 -> c < 256 ->
  let n := group24 a b c in
  regroup (sextet 0 n) (sextet 1 n) (sextet 2 n) (sextet 3 n) = n.
Proof.
  intros Ha Hb Hc. unfold regroup, sextet, group24. zify; euclid.
Qed.

Lemma group24_bytes a b c :
  a < 256 -> b < 256 -> c < 256 ->
  let n := group24 a b c in
  n / 65536 = a /\ n / 256 mod 256 = b /\ n mod 256 = c.
Proof.
  intros Ha Hb Hc. unfold group24. zify; euclid.
Qed.

Lemma regroup_two a b :
  a < 256 -> b < 256 ->
  let n := group24 a b 0 in
  let m := regroup (sextet 0 n) (sextet 1 n) (sextet 2 n) 0 in
  m / 65536 = a /\ m / 256 mod 256 = b.
Proof.
  intros Ha Hb. unfold regroup, sextet, group24. zify; euclid.
Qed.

Lemma regroup_one a :
  a < 256 ->
  let n := group24 a 0 0 in
  regroup (sextet 0 n) (sextet 1 n) 0 0 / 65536 = a.
Proof.
  intros Ha. unfold regroup, sextet, group24. zify; euclid.
Qed.

(** A full group of three bytes is read back from its four characters. *)
Lemma decode_quad_encode a b c :
  let n := group24 (Byte.to_N a) (Byte.to_N b) (Byte.to_N c) in
  decode_quad (sextet_to_char (sextet 0 n)) (sextet_to_char (sextet 1 n))
              (sextet_to_char (sextet 2 n)) (sextet_to_char (sextet 3 n))
  = Some [a; b; c].
Proof.
  intros n. subst n.
  pose proof (byte_lt_256 a) as Ha. pose proof (byte_lt_256 b) as Hb.
  pose proof (byte_lt_256 c) as Hc.
  unfold decode_quad.
  rewrite !sextet_char_roundtrip by (apply sextet_lt_64; assumption).
  cbv zeta. rewrite regroup_sextets by assumption.
  destruct (group24_bytes _ _ _ Ha Hb Hc) as (-> & -> & ->).
  now rewrite !byte_of_to_N.
Qed.

Lemma list_ind_by3 {A : Type} (P : list A -> Prop) :
  P [] ->
  (forall a, P [a]) ->
  (forall a b, P [a; b]) ->
  (forall a b c rest, P rest -> P (a :: b :: c :: rest)) ->
  forall l, P l.
Proof.
  intros H0 H1 H2 H3.
  fix IH 1. intros [|a [|b [|c rest]]].
  - exact H0.
  - apply H1.
  - apply H2.
  - apply H3, IH.
Qed.

Lemma decode_empty_inv s bs : decode s = Ok bs -> s = EmptyString -> bs = [].
Proof. intros H ->. simpl in H. congruence. Qed.

(** C1. For every byte sequence, the empty one included, decoding the
    encoding gives the sequence back: decode(encode(b)) == b. *)
Theorem base64_roundtrip (b : list byte) : decode (encode b) = Ok b.
Proof.
  induction b as [|a|a b|a b c rest IH] using list_ind_by3.
  - reflexivity.
  - pose proof (byte_lt_256 a) as Ha.
    cbn [encode str4 decode]. unfold decode_last.
    rewrite Ascii.eqb_refl.
    rewrite !sextet_char_roundtrip
      by (apply sextet_lt_64; [assumption | reflexivity | reflexivity]).
    cbv zeta. rewrite regroup_one by assumption.
    now rewrite byte_of_to_N.
  - pose proof (byte_lt_256 a) as Ha. pose proof (byte_lt_256 b) as Hb.
    cbn [encode str4 decode]. unfold decode_last.
    rewrite Ascii.eqb_refl.
    rewrite sextet_char_not_pad
      by (apply sextet_lt_64; [assumption | assumption | reflexivity]).
    rewrite !sextet_char_roundtrip
      by (apply sextet_lt_64; [assumption | assumption | reflexivity]).
    cbv zeta.
    destruct (regroup_two _ _ Ha Hb) as (-> & ->).
    now rewrite !byte_of_to_N.
  - pose proof (byte_lt_256 a) as Ha. pose proof (byte_lt_256 b) as Hb.
    pose proof (byte_lt_256 c) as Hc.
    cbn [encode str4 decode].
    destruct (encode rest) as [|d tail] eqn:Erest.
    + rewrite (decode_empty_inv _ _ IH eq_refl).
      unfold decode_last.
      rewrite sextet_char_not_pad by (apply sextet_lt_64; assumption).
      now rewrite decode_quad_encode.
    + rewrite decode_quad_encode. rewrite IH. reflexivity.
Qed.

End Base64Facts.

Example encode_Man :
  Base64.encode [x4d; x61; x6e] = "TWFu"%string
  /\ Base64.encode [x4d; x61] = "TWE="%string
  /\ Base64.encode [x4d] = "TQ=="%string.
Proof. repeat split; reflexivity. Qed.

Example decode_malformed :
  Base64.decode "TQ="%string = Err FormatError
  /\ Base64.decode "T*Fu"%string = Err FormatError
  /\ Base64.decode "TQ==TWFu"%string = Err FormatError.
Proof. repeat split; reflexivity. Qed.

(** ** The PCM frame decoder *)

Section PCMFacts.

Import PCM.

Lemma list_ind_by2 {A : Type} (P : list A -> Prop) :
  P [] ->
  (forall a, P [a]) ->
  (forall a b rest, P rest -> P (a :: b :: rest)) ->
  forall l, P l.
Proof.
  intros H0 H1 H2.
  fix IH 1. intros [|a [|b rest]].
  - exact H0.
  - apply H1.
  - apply H2, IH.
Qed.

Lemma int16_stream_length (bs : list byte) :
  length (int16_stream bs) = (length bs / 2)%nat.
Proof.
  induction bs as [|a|a b rest IH] using list_ind_by2.
  - reflexivity.
  - reflexivity.
  - cbn [int16_stream length]. rewrite IH.
    change (S (S (length rest))) with (1 * 2 + length rest)%nat.
    rewrite Nat.div_add_l by lia. lia.
Qed.

Lemma int16_stream_lookup (bs : list byte) (i : nat) (lo hi : byte) :
  bs !! (2 * i)%nat = Some lo ->
  bs !! (2 * i + 1)%nat = Some hi ->
  int16_stream bs !! i = Some (int16_le lo hi).
Proof.
  revert i. induction bs as [|a|a b rest IH] using list_ind_by2;
    intros i Hlo Hhi.
  - discriminate.
  - destruct i as [|i]; [discriminate|].
    replace (2 * S i)%nat with (S (S (2 * i))) in Hlo by lia. discriminate.
  - destruct i as [|i].
    + cbn in Hlo, Hhi. now simplify_eq.
    + replace (2 * S i)%nat with (S (S (2 * i))) in Hlo by lia.
      replace (2 * S i + 1)%nat with (S (S (2 * i + 1))) in Hhi by lia.
      cbn [int16_stream]. cbn in Hlo, Hhi |- *. now apply IH.
Qed.

Lemma byte_val_range b : (0 <= byte_val b < 256)%Z.
Proof.
  unfold byte_val. pose proof (Byte.to_N_bounded b). lia.
Qed.

(** The reading is the two's-complement value of the 16-bit word whose low
    byte comes first. *)
Lemma int16_le_spec lo hi :
  (-32768 <= int16_le lo hi <= 32767)%Z
  /\ (int16_le lo hi mod 65536 = byte_val lo + 256 * byte_val hi)%Z.
Proof.
  pose proof (byte_val_range lo). pose proof (byte_val_range hi).
  unfold int16_le. cbv zeta.
  destruct (Z.ltb_spec (byte_val lo + 256 * byte_val hi) 32768).
  - split; [lia|]. apply Z.mod_small. lia.
  - split; [lia|].
    symmetry. apply (Z.mod_unique _ _ (-1)); lia.
Qed.

(** When the decoder fails and when it gives a buffer, for either choice
    on empty input: a [DecodeError] below one channel, and on empty input
    under [EmptyFails]; a SampleBuffer everywhere else. *)
Lemma decodeAudioData_fails_iff (choice : EmptyInput) (bytes : list byte)
    (rate channels : Z) :
  (decodeAudioData choice bytes rate channels = Err DecodeError
     <-> (channels < 1)%Z \/ (choice = EmptyFails /\ bytes = []))
  /\ ((exists buf, decodeAudioData choice bytes rate channels = Ok buf)
     <-> ~ ((channels < 1)%Z \/ (choice = EmptyFails /\ bytes = []))).
Proof.
  unfold decodeAudioData.
  destruct (Z.ltb_spec channels 1) as [Hc|Hc]; cbn [orb].
  - split; split; try tauto; try eauto.
    intros [buf Hbuf]. discriminate.
  - destruct choice; cbn [refused].
    + case_bool_decide as Hb.
      * split; split; try tauto; try eauto.
        intros [buf Hbuf]. discriminate.
      * split; split.
        -- discriminate.
        -- intros [H|[_ H]]; [lia|contradiction].
        -- intros _ [H|[_ H]]; [lia|contradiction].
        -- intros _. eauto.
    + split; split.
      * discriminate.
      * intros [H|[H _]]; [lia|discriminate].
      * intros _ [H|[H _]]; [lia|discriminate].
      * intros _. eauto.
Qed.

(** The two choices differ on the empty sequence and nowhere else. *)
Lemma decodeAudioData_choice (bytes : list byte) (rate channels : Z) :
  (bytes <> [] ->
   decodeAudioData EmptyFails bytes rate channels
   = decodeAudioData EmptyDecodes bytes rate channels)
  /\ decodeAudioData EmptyFails [] rate 1 = Err DecodeError
  /\ decodeAudioData EmptyDecodes [] rate 1
     = Ok {| samples := []; channelCount := 1; sampleRate := rate |}.
Proof.
  split; [|split; reflexivity].
  intros Hb. unfold decodeAudioData. cbn [refused].
  case_bool_decide; [contradiction|]. reflexivity.
Qed.

(** What a decoded buffer holds.  On every byte sequence the decoder does
    not refuse (a channel count of at least one; empty input only where it
    is decoded), the buffer has exactly floor(len/2) samples, sample [i]
    being the little-endian int16 made of bytes [2i] and [2i+1] divided by
    32768, so that a trailing odd byte is dropped; [0x00, 0x80] gives
    exactly -1, [0xFF, 0x7F] gives 32767/32768, and any three bytes give
    one sample. *)
Lemma decodeAudioData_samples (choice : EmptyInput) :
  (forall (bytes : list byte) (rate channels : Z),
      (1 <= channels)%Z -> (bytes = [] -> choice = EmptyDecodes) ->
      exists buf,
        decodeAudioData choice bytes rate channels = Ok buf
        /\ channelCount buf = channels /\ sampleRate buf = rate
        /\ length (samples buf) = (length bytes / 2)%nat
        /\ forall (i : nat) (lo hi : byte),
             bytes !! (2 * i)%nat = Some lo ->
             bytes !! (2 * i + 1)%nat = Some hi ->
             samples buf !! i = Some (inject_Z (int16_le lo hi) / 32768)%Q
             /\ (-32768 <= int16_le lo hi <= 32767)%Z
             /\ (int16_le lo hi mod 65536
                 = byte_val lo + 256 * byte_val hi)%Z)
  /\ (forall rate, exists q,
        decodeAudioData choice [x00; x80] rate 1
        = Ok {| samples := [q]; channelCount := 1; sampleRate := rate |}
        /\ (q == -1)%Q)
  /\ (forall rate, exists q,
        decodeAudioData choice [xff; x7f] rate 1
        = Ok {| samples := [q]; channelCount := 1; sampleRate := rate |}
        /\ (q == 32767 # 32768)%Q)
  /\ (forall rate b0 b1 b2,
        decodeAudioData choice [b0; b1; b2] rate 1
        = Ok {| samples := [(inject_Z (int16_le b0 b1) / 32768)%Q];
                channelCount := 1; sampleRate := rate |}).
Proof.
  split; [|split; [|split]].
  - intros bytes rate channels Hc Hb. unfold decodeAudioData.
    destruct (Z.ltb_spec channels 1) as [?|_]; [lia|]. cbn [orb].
    assert (refused choice bytes = false) as ->.
    { destruct choice; [|reflexivity]. cbn [refused].
      case_bool_decide as He; [|reflexivity]. now specialize (Hb He). }
    eexists. split; [reflexivity|]. cbn [samples channelCount sampleRate].
    split; [reflexivity|]. split; [reflexivity|]. split.
    + rewrite length_map. apply int16_stream_length.
    + intros i lo hi Hlo Hhi. split; [|apply int16_le_spec].
      rewrite list_lookup_fmap.
      now rewrite (int16_stream_lookup _ _ _ _ Hlo Hhi).
  - intros rate. destruct choice; eexists; (split; [reflexivity|]); reflexivity.
  - intros rate. destruct choice; eexists; (split; [reflexivity|]); reflexivity.
  - intros rate b0 b1 b2. destruct choice; reflexivity.
Qed.

(** Three bytes, one sample, under either choice. *)
Lemma decodeAudioData_three_bytes (choice : EmptyInput) :
  exists buf,
    decodeAudioData choice [x01; x02; x03] 24000 1 = Ok buf
    /\ length (samples buf) = 1%nat.
Proof.
  destruct (proj1 (decodeAudioData_samples choice) [x01; x02; x03]
              24000%Z 1%Z)
    as (buf & Hbuf & _ & _ & Hlen & _).
  - lia.
  - discriminate.
  - exists buf. split; [exact Hbuf | exact Hlen].
Qed.

(** Channel splitting: four samples over two channels. *)
Example two_channels (a b c d : Q) :
  let buf := {| samples := [a; b; c; d]; channelCount := 2;
                sampleRate := 24000 |} in
  getChannelData buf 0 = [a; c] /\ getChannelData buf 1 = [b; d].
Proof. split; reflexivity. Qed.

End PCMFacts.

(** ** The remote wrappers *)

Section GeminiFacts.

Import Js Gemini Shapes.

Variable ai : nat -> Request -> Promise Response.
Variable JSON_parse : string -> option Json.
Variable to_string : option Json -> string.

Lemma promise_all2_rejects {A B : Type} (p : Promise A) (q : Promise B) :
  is_rejected (outcome p) = true \/ is_rejected (outcome q) = true ->
  exists e, promise_all2 p q = Rejected e
            /\ (outcome p = Rejected e \/ outcome q = Rejected e).
Proof.
  unfold promise_all2.
  destruct (outcome p) as [a|e1], (outcome q) as [b|e2]; cbn [is_rejected].
  - intros [H|H]; discriminate.
  - intros _. exists e2. split; [reflexivity | now right].
  - intros _. exists e1. split; [reflexivity | now left].
  - intros _.
    destruct (Nat.ltb (settles_at q) (settles_at p)).
    + exists e2. split; [reflexivity | now right].
    + exists e1. split; [reflexivity | now left].
Qed.

(** Both requests leave before anything is awaited, whatever comes back. *)
Lemma generateVisualVocab_issues_both (word : string) (w : World) :
  issued (snd (generateVisualVocab ai JSON_parse to_string word w))
  = issued w ++ [defRequest word; imageRequest word].
Proof.
  unfold generateVisualVocab, generateContent. cbn.
  now rewrite <- app_assoc.
Qed.

(** C3. The definition request and the image request are both issued
    before the join; if either of the two calls is rejected, the composed
    operation is rejected as a whole, with the reason of one of the two
    calls, and no card is returned. *)
Theorem generateVisualVocab_fails_if_either_fails (word : string) (w : World) :
  let defPromise := ai (length (issued w)) (defRequest word) in
  let imagePromise := ai (S (length (issued w))) (imageRequest word) in
  is_rejected (outcome defPromise) = true
    \/ is_rejected (outcome imagePromise) = true ->
  (exists e,
      fst (generateVisualVocab ai JSON_parse to_string word w) = Rejected e
      /\ (outcome defPromise = Rejected e \/ outcome imagePromise = Rejected e))
  /\ issued (snd (generateVisualVocab ai JSON_parse to_string word w))
     = issued w ++ [defRequest word; imageRequest word].
Proof.
  intros defPromise imagePromise Hfail.
  split; [|apply generateVisualVocab_issues_both].
  destruct (promise_all2_rejects defPromise imagePromise Hfail) as (e & He & Hsrc).
  exists e. split; [|exact Hsrc].
  unfold generateVisualVocab, generateContent. cbn.
  rewrite length_app, Nat.add_1_r.
  fold defPromise imagePromise. now rewrite He.
Qed.

(** C7, as the wrapper has it.  A call succeeds with [j] exactly when the
    remote call resolved with a non-empty text that [JSON.parse] reads as
    [j]: the parsed payload is handed back as it is. *)
Theorem checkPronunciation_returns_payload
    (targetWord audioBase64 : string) (w : World) (j : Json) :
  fst (checkPronunciation ai JSON_parse targetWord audioBase64 w) = Resolved j
  <-> exists response t,
        outcome (ai (length (issued w))
                    (pronunciationRequest targetWord audioBase64))
          = Resolved response
        /\ text response = Some t /\ t <> ""%string /\ JSON_parse t = Some j.
Proof.
  unfold checkPronunciation, generateContent. cbn.
  destruct (outcome _) as [response|e]; cbn.
  - destruct (text response) as [t|] eqn:Ht; cbn.
    + destruct (String.eqb_spec t ""%string) as [->|Hne]; cbn.
      * split; [discriminate|].
        intros (r & t' & Hr & Ht' & Hne & _). congruence.
      * unfold parse. split.
        -- destruct (JSON_parse t) as [j'|] eqn:Hp; [|discriminate].
           intros [= ->]. exists response, t. auto.
        -- intros (r & t' & [= <-] & Ht' & _ & Hp).
           rewrite Ht in Ht'. injection Ht' as <-. now rewrite Hp.
    + split; [discriminate|].
      intros (r & t' & [= <-] & Ht' & _). congruence.
  - split; [discriminate|]. intros (r & t' & Hr & _). discriminate.
Qed.

(** [generateSpeech] never rejects and issues one request. *)
Lemma generateSpeech_total (t : string) (w : World) :
  (exists v, fst (generateSpeech ai t w) = Resolved v)
  /\ issued (snd (generateSpeech ai t w)) = issued w ++ [speechRequest t].
Proof.
  unfold generateSpeech, generateContent. cbn.
  destruct (outcome _); cbn; eauto.
Qed.

(** C8. When speech synthesis fails, because the call is rejected or the
    response has no audio payload, [generateSpeech] has issued its one
    request and no other (no retry), raises nothing, and resolves with
    [null]. *)
Theorem generateSpeech_degrades_to_null (t : string) (w : World) :
  speech_failed (ai (length (issued w)) (speechRequest t)) ->
  fst (generateSpeech ai t w) = Resolved None
  /\ issued (snd (generateSpeech ai t w)) = issued w ++ [speechRequest t].
Proof.
  intros Hfail. split; [|apply generateSpeech_total].
  revert Hfail. unfold speech_failed, generateSpeech, generateContent. cbn.
  destruct (outcome _) as [r|e]; cbn.
  - now intros ->.
  - reflexivity.
Qed.

End GeminiFacts.

(** ** Recording in the visual dictionary view *)

Section VisualDictFacts.

Import Js Media VisualDict.

Variable strict_stop : bool.

Lemma active_sessions_start_new {Env : Type} (env : Env) (c : Capture Env) :
  active_sessions (start_new env c) = S (active_sessions c).
Proof.
  unfold active_sessions, start_new. cbn [recorders].
  rewrite List.filter_app, length_app. cbn. lia.
Qed.

(** C4. While the view is idle ([isRecording] false), and in particular
    before any recording was started, [stopRecording] raises nothing and
    changes nothing: the view stays idle, no event is queued for the
    [onstop] handler and no Blob is assembled. *)
Theorem stopRecording_idle_noop (v : View) :
  isRecording v = false ->
  stopRecording strict_stop v = (v, Resolved tt)
  /\ isRecording (fst (stopRecording strict_stop v)) = false
  /\ queue (capture (fst (stopRecording strict_stop v))) = queue (capture v)
  /\ blobs (capture (fst (stopRecording strict_stop v))) = blobs (capture v).
Proof.
  intros Hidle.
  assert (stopRecording strict_stop v = (v, Resolved tt)) as ->.
  { unfold stopRecording. rewrite Hidle.
    destruct (mediaRecorderRef (capture v)); reflexivity. }
  cbn [fst]. auto.
Qed.

(** [startRecording] never rejects, whatever the microphone answers. *)
Lemma startRecording_never_rejects (mic : Settled unit) (v : View) :
  snd (startRecording mic v) = Resolved tt.
Proof. destruct mic; reflexivity. Qed.

(** C5, as the view has it.  [startRecording] checks no state: called while
    the view is already recording it is not rejected, and once the
    microphone is granted it starts one more recorder, points the ref at it
    and empties the accumulator, the earlier recorder being left as it
    was.  The exclusion lies in the record button, which calls
    [stopRecording], not [startRecording], while the view is recording. *)
Theorem startRecording_unguarded (mic : Settled unit) (v : View) :
  isRecording v = true ->
  snd (startRecording mic v) = Resolved tt
  /\ (let v' := fst (startRecording (Resolved tt) v) in
      active_sessions (capture v') = S (active_sessions (capture v))
      /\ mediaRecorderRef (capture v') = Some (length (recorders (capture v)))
      /\ chunksRef (capture v') = []
      /\ isRecording v' = true
      /\ forall rid r, recorders (capture v) !! rid = Some r ->
                       recorders (capture v') !! rid = Some r)
  /\ recordButton strict_stop mic v = stopRecording strict_stop v.
Proof.
  intros Hrec. split; [apply startRecording_never_rejects|]. split.
  - cbn. split; [apply active_sessions_start_new|].
    repeat split.
    intros rid r Hr. now apply lookup_app_l_Some.
  - unfold recordButton. now rewrite Hrec.
Qed.

End VisualDictFacts.

(** Before any [startRecording], stopping is a no-op and running the event
    loop afterwards assembles no Blob. *)
Lemma stopRecording_idle_noop_witness :
  VisualDict.isRecording VisualDict.initial = false
  /\ VisualDict.stopRecording true VisualDict.initial
     = (VisualDict.initial, Js.Resolved tt)
  /\ Media.blobs (VisualDict.capture
       (VisualDict.drain (Sample.scripted []) (Sample.parse_table [])
          Sample.show
          (fst (VisualDict.stopRecording true VisualDict.initial)))) = [].
Proof.
  split; [reflexivity|]. split.
  - apply (stopRecording_idle_noop true VisualDict.initial). reflexivity.
  - reflexivity.
Defined.

(** A view in which one recording is under way. *)
Lemma startRecording_unguarded_witness :
  let v := fst (VisualDict.startRecording (Js.Resolved tt) VisualDict.initial) in
  VisualDict.isRecording v = true
  /\ snd (VisualDict.startRecording (Js.Resolved tt) v) = Js.Resolved tt
  /\ VisualDict.recordButton false (Js.Resolved tt) v
     = VisualDict.stopRecording false v.
Proof.
  cbv zeta. split; [reflexivity|].
  destruct (startRecording_unguarded false (Js.Resolved tt)
              (fst (VisualDict.startRecording (Js.Resolved tt) VisualDict.initial)))
    as (H1 & _ & H3).
  - reflexivity.
  - split; [exact H1 | exact H3].
Defined.

(** Starting while a recording is under way is not rejected; two recorders
    are then recording at once. *)
Lemma startRecording_twice_two_sessions :
  let v := fst (VisualDict.startRecording (Js.Resolved tt) VisualDict.initial) in
  VisualDict.isRecording v = true
  /\ Media.active_sessions (VisualDict.capture v) = 1
  /\ snd (VisualDict.startRecording (Js.Resolved tt) v) = Js.Resolved tt
  /\ snd (VisualDict.startRecording (Js.Resolved tt) v)
     <> Js.Rejected (Js.DOMException "InvalidStateError")
  /\ Media.active_sessions
       (VisualDict.capture (fst (VisualDict.startRecording (Js.Resolved tt) v)))
     = 2.
Proof.
  cbv zeta. repeat split; try reflexivity. discriminate.
Qed.

(** ** Recording in the chat view *)

Section ChatFacts.

Import Js Media Chat.

Variable strict_stop : bool.
Variable sendMessage : list Gemini.Part -> Settled (option string).
Variable createObjectURL : Blob -> string.


Lemma stop_recorder_recording (shouldSend : bool) (v : View) rid r :
  mediaRecorderRef (capture v) = Some rid ->
  isRecording v = true ->
  recorders (capture v) !! rid = Some r ->
  state r = recording ->
  stop_recorder strict_stop shouldSend v
  = Resolved
      {| recorders := <[ rid := stopped r ]> (recorders (capture v));
         mediaRecorderRef := Some rid;
         chunksRef := chunksRef (capture v);
         queue := queue (capture v) ++ [DataAvailable rid (undelivered r); Stop rid];
         blobs := blobs (capture v) |}.
Proof.
  intros Href Hrec Hr Hstate.
  pose proof (lookup_lt_Some _ _ _ Hr) as Hlt.
  unfold stop_recorder. rewrite Href, Hrec.
  assert (recorder_stop strict_stop rid (capture v)
          = Resolved
              {| recorders :=
                   <[ rid := {| state := inactive; track_live := track_live r;
                                undelivered := []; captured := captured r |} ]>
                     (recorders (capture v));
                 mediaRecorderRef := mediaRecorderRef (capture v);
                 chunksRef := chunksRef (capture v);
                 queue := queue (capture v)
                          ++ [DataAvailable rid (undelivered r); Stop rid];
                 blobs := blobs (capture v) |}) as Hstop.
  { unfold recorder_stop. now rewrite Hr, Hstate. }
  destruct shouldSend; rewrite Hstop; cbn [bind]; f_equal;
    unfold stop_tracks; cbn [recorders mediaRecorderRef chunksRef queue blobs];
    rewrite list_lookup_insert_eq by assumption;
    cbn [state track_live undelivered captured];
    rewrite list_insert_insert_eq, Href; reflexivity.
Qed.

(** Once a recording has been stopped, with either value of [shouldSend],
    the event loop delivers what the recorder still held and runs [onstop],
    which calls [handleSend] with the whole recording as an audio
    attachment, in the closure of the render that started the recording. *)
Lemma stop_then_drain_onstop (shouldSend : bool) (now later : nat)
    (v : View) rid r :
  mediaRecorderRef (capture v) = Some rid ->
  isRecording v = true ->
  recorders (capture v) !! rid = Some r ->
  state r = recording ->
  queue (capture v) = [] ->
  let blob := concat (chunksRef (capture v)) ++ undelivered r in
  exists v',
    messages v' = messages v
    /\ drain sendMessage createObjectURL now later
         (fst (stopRecording strict_stop shouldSend v))
       = handleSend sendMessage (captured r) None
           (Some {| type := audio; url := createObjectURL blob;
                    data := Some (blobToBase64 blob);
                    mimeType := Some "audio/mp3"%string |})
           now later v'.
Proof.
  intros Href Hrec Hr Hstate Hq blob.
  pose proof (lookup_lt_Some _ _ _ Hr) as Hlt.
  unfold stopRecording.
  rewrite (stop_recorder_recording shouldSend v rid r Href Hrec Hr Hstate).
  rewrite Hq. cbn [fst app].
  unfold drain, set_queue, set_capture. cbn [capture queue foldl deliver].
  unfold set_capture.
  cbn [capture queue recorders mediaRecorderRef chunksRef blobs chat messages
       input attachment isLoading isRecording recordingDuration timerRef
       intervals handles console alerts].
  assert (concat (chunksRef (ondataavailable (undelivered r)
            {| recorders := <[ rid := stopped r ]> (recorders (capture v));
               mediaRecorderRef := Some rid;
               chunksRef := chunksRef (capture v);
               queue := [];
               blobs := blobs (capture v) |})) = blob
          /\ recorders (ondataavailable (undelivered r)
            {| recorders := <[ rid := stopped r ]> (recorders (capture v));
               mediaRecorderRef := Some rid;
               chunksRef := chunksRef (capture v);
               queue := [];
               blobs := blobs (capture v) |})
             = <[ rid := stopped r ]> (recorders (capture v))) as [Hblob Hrecs].
  { unfold ondataavailable, blob.
    destruct (undelivered r) as [|x d]; cbn.
    - split; [now rewrite app_nil_r | reflexivity].
    - split; [|reflexivity]. rewrite concat_app. cbn. now rewrite app_nil_r. }
  unfold onstop, assemble, set_capture.
  cbn [capture queue recorders mediaRecorderRef chunksRef blobs chat messages
       input attachment isLoading isRecording recordingDuration timerRef
       intervals handles console alerts].
  rewrite Hblob, Hrecs.
  rewrite list_lookup_insert_eq by assumption.
  cbn [captured stopped].
  eexists. split; [|reflexivity]. reflexivity.
Qed.

(** [handleSend] with an attachment, in a render that had a chat session:
    the user's message and the tutor's reply are appended. *)
Lemma handleSend_attachment_appends (env : Closure) (att : Attachment)
    (now later : nat) (v : View) :
  c_chat env = true ->
  exists reply,
    messages (handleSend sendMessage env None (Some att) now later v)
    = messages v ++
        [ {| id := stamp now; role := user; text := c_input env;
             attachment_of := Some att |};
          reply ]
    /\ role reply = model.
Proof.
  intros Hchat. unfold handleSend. rewrite Hchat.
  rewrite (bool_decide_eq_true_2 (is_Some (Some _))) by eauto.
  cbn [negb]. rewrite andb_false_r. cbn [orb].
  cbn [messages].
  eexists. split; [reflexivity|].
  destruct (sendMessage _); reflexivity.
Qed.

(** X24. Stopping a recording in the chat view, with either value of
    [shouldSend], and running the queued recorder events appends a user
    message whose audio attachment carries the Base64 text of everything
    recorded, followed by the tutor's reply, provided a chat session
    existed when the recording was started. *)
Lemma stop_then_drain_sends (shouldSend : bool) (now later : nat)
    (v : View) rid r :
  mediaRecorderRef (capture v) = Some rid ->
  isRecording v = true ->
  recorders (capture v) !! rid = Some r ->
  state r = recording ->
  queue (capture v) = [] ->
  c_chat (captured r) = true ->
  let blob := concat (chunksRef (capture v)) ++ undelivered r in
  exists reply,
    messages (drain sendMessage createObjectURL now later
                (fst (stopRecording strict_stop shouldSend v)))
    = messages v ++
        [ {| id := stamp now; role := user; text := c_input (captured r);
             attachment_of :=
               Some {| type := audio; url := createObjectURL blob;
                       data := Some (blobToBase64 blob);
                       mimeType := Some "audio/mp3"%string |} |};
          reply ]
    /\ role reply = model.
Proof.
  intros Href Hrec Hr Hstate Hq Hchat blob.
  destruct (stop_then_drain_onstop shouldSend now later v rid r
              Href Hrec Hr Hstate Hq) as (v' & Hm & ->).
  rewrite <- Hm. now apply handleSend_attachment_appends.
Qed.


End ChatFacts.

(** Cancelling a recording still sends it: the cancelled recording of three
    bytes ends up as an audio message, Base64-encoded. *)
Example cancel_still_sends :
  let v1 := fst (Chat.startRecording (Js.Resolved tt) Chat.mounted) in
  let v2 := Chat.set_capture (Media.gather 0 [x01; x02; x03] (Chat.capture v1)) v1 in
  let v3 := fst (Chat.stopRecording false false v2) in
  Chat.isRecording v3 = false
  /\ Chat.messages (Chat.drain Sample.always_replies Sample.object_url 10 20 v3)
     = Chat.messages Chat.mounted ++
       [ {| Chat.id := Chat.stamp 10; Chat.role := Chat.user;
            Chat.text := ""%string;
            Chat.attachment_of :=
              Some {| Chat.type := Chat.audio;
                      Chat.url := "blob:recording"%string;
                      Chat.data := Some "AQID"%string;
                      Chat.mimeType := Some "audio/mp3"%string |} |};
         {| Chat.id := Chat.stamp 21; Chat.role := Chat.model;
            Chat.text := "Nice!"%string;
            Chat.attachment_of := None |} ].
Proof. cbv zeta. split; vm_compute; reflexivity. Qed.


(** ** Saving a quiz to the lesson history *)

Section LessonFacts.

Import Lesson.

Variable JSON_stringify : list LessonResult -> string.

Lemma checkAnswers_saved (now_id now_ts : nat) (v : View) :
  isSaved v = true ->
  history (checkAnswers JSON_stringify now_id now_ts v) = history v
  /\ localStorage (checkAnswers JSON_stringify now_id now_ts v) = localStorage v
  /\ isSaved (checkAnswers JSON_stringify now_id now_ts v) = true
  /\ lesson (checkAnswers JSON_stringify now_id now_ts v) = lesson v.
Proof.
  intros Hsaved. unfold checkAnswers. rewrite Hsaved.
  destruct (lesson v); cbn; auto.
Qed.

Lemma checkAnswers_again_saved (clocks : list (nat * nat)) (v : View) :
  isSaved v = true ->
  history (checkAnswers_again JSON_stringify clocks v) = history v
  /\ localStorage (checkAnswers_again JSON_stringify clocks v) = localStorage v
  /\ isSaved (checkAnswers_again JSON_stringify clocks v) = true.
Proof.
  revert v. induction clocks as [|[now_id now_ts] clocks IH]; intros v Hsaved.
  - cbn. auto.
  - cbn [checkAnswers_again foldl fst snd].
    destruct (checkAnswers_saved now_id now_ts v Hsaved) as (Hh & Hs & Hv & _).
    destruct (IH _ Hv) as (Hh' & Hs' & Hv').
    unfold checkAnswers_again in Hh', Hs', Hv'.
    rewrite Hh', Hs', Hv'. auto.
Qed.

(** C10. Once [checkAnswers] has recorded the result of a lesson (one
    record added, [isSaved] set), any number of further calls on that
    lesson adds no record and leaves both the history and what is stored
    under [lesson_history] unchanged. *)
Theorem checkAnswers_saves_once (now_id now_ts : nat)
    (clocks : list (nat * nat)) (v : View) :
  lesson v <> None ->
  isSaved v = false ->
  let v1 := checkAnswers JSON_stringify now_id now_ts v in
  let vn := checkAnswers_again JSON_stringify clocks v1 in
  isSaved v1 = true
  /\ length (history v1) = S (length (history v))
  /\ localStorage v1 !! "lesson_history"%string
     = Some (JSON_stringify (history v1))
  /\ history vn = history v1
  /\ localStorage vn = localStorage v1
  /\ isSaved vn = true.
Proof.
  intros Hlesson Hunsaved v1 vn.
  assert (isSaved v1 = true) as Hsaved.
  { subst v1. unfold checkAnswers. rewrite Hunsaved.
    destruct (lesson v); [reflexivity | contradiction]. }
  split; [exact Hsaved|]. split; [|split].
  - subst v1. unfold checkAnswers. rewrite Hunsaved.
    destruct (lesson v); [reflexivity | contradiction].
  - subst v1. unfold checkAnswers. rewrite Hunsaved.
    destruct (lesson v); [|contradiction]. cbn.
    apply lookup_insert_eq.
  - subst vn. apply checkAnswers_again_saved, Hsaved.
Qed.

End LessonFacts.

Lemma checkAnswers_saves_once_witness :
  let v1 := Lesson.checkAnswers Sample.stringify 1000 1001 Sample.answered in
  let vn := Lesson.checkAnswers_again Sample.stringify [(2000, 2000); (3000, 3001)] v1 in
  Lesson.score <$> Lesson.history v1 = [1]
  /\ Lesson.history vn = Lesson.history v1
  /\ Lesson.localStorage vn = Lesson.localStorage v1.
Proof.
  cbv zeta.
  destruct (checkAnswers_saves_once Sample.stringify 1000 1001
              [(2000, 2000); (3000, 3001)] Sample.answered)
    as (_ & _ & _ & Hh & Hs & _).
  - discriminate.
  - reflexivity.
  - split; [reflexivity|]. split; [exact Hh | exact Hs].
Defined.

(** ** The remote wrappers on sample environments *)

(** The definition call resolves at tick 5, the image call is rejected at
    tick 3: the composed operation is rejected. *)
Lemma generateVisualVocab_fails_if_either_fails_witness :
  fst (Gemini.generateVisualVocab
         (Sample.scripted
            [Sample.resolved_at 5 (Sample.text_response Sample.payload_cat);
             Sample.rejected_at 3 "quota"])
         (Sample.parse_table Sample.payloads) Sample.show
         "cat" Sample.empty_world)
  = Js.Rejected (Js.RemoteFailure "quota").
Proof.
  destruct (generateVisualVocab_fails_if_either_fails
              (Sample.scripted
                 [Sample.resolved_at 5 (Sample.text_response Sample.payload_cat);
                  Sample.rejected_at 3 "quota"])
              (Sample.parse_table Sample.payloads) Sample.show
              "cat" Sample.empty_world)
    as ((e & He & [Hsrc|Hsrc]) & _).
  - right. reflexivity.
  - discriminate Hsrc.
  - cbn in Hsrc. injection Hsrc as <-. exact He.
Defined.

(** The same with the roles exchanged: the image call resolves and the
    definition call is rejected. *)
Example generateVisualVocab_definition_fails :
  fst (Gemini.generateVisualVocab
         (Sample.scripted
            [Sample.rejected_at 9 "network";
             Sample.resolved_at 2 Sample.image_response])
         (Sample.parse_table Sample.payloads) Sample.show
         "cat" Sample.empty_world)
  = Js.Rejected (Js.RemoteFailure "network").
Proof. reflexivity. Qed.

(** When both calls resolve, the card is assembled from the two answers. *)
Example generateVisualVocab_both_resolve :
  fst (Gemini.generateVisualVocab
         (Sample.scripted
            [Sample.resolved_at 5 (Sample.text_response Sample.payload_cat);
             Sample.resolved_at 3 Sample.image_response])
         (Sample.parse_table Sample.payloads) Sample.show
         "cat" Sample.empty_world)
  = Js.Resolved
      {| Gemini.word := Js.JStr "cat";
         Gemini.example := Some (Js.JStr "The cat sleeps.");
         Gemini.imageUrl := "data:image/png;base64,iVBORw0KGgo=";
         Gemini.definition := "A small pet. 

(Traduction: chat)" |}.
Proof. reflexivity. Qed.

(** A payload within the announced range is handed back as it is. *)
Lemma checkPronunciation_returns_payload_witness :
  fst (Gemini.checkPronunciation
         (Sample.scripted [Sample.resolved_at 1 (Sample.text_response Sample.payload_7)])
         (Sample.parse_table Sample.payloads)
         "cat" "AQID" Sample.empty_world)
  = Js.Resolved Sample.parsed_7
  /\ Shapes.is_score_record Sample.parsed_7 = true.
Proof.
  split; [|reflexivity].
  apply (proj2 (checkPronunciation_returns_payload
                  (Sample.scripted
                     [Sample.resolved_at 1 (Sample.text_response Sample.payload_7)])
                  (Sample.parse_table Sample.payloads)
                  "cat" "AQID" Sample.empty_world Sample.parsed_7)).
  exists (Sample.text_response Sample.payload_7), Sample.payload_7.
  repeat split; try reflexivity.
  intros H. vm_compute in H. discriminate H.
Defined.

(** A successful call whose score is 11: the result is not a record with a
    score between 0 and 10. *)
Lemma checkPronunciation_score_out_of_range :
  fst (Gemini.checkPronunciation
         (Sample.scripted [Sample.resolved_at 1 (Sample.text_response Sample.payload_11)])
         (Sample.parse_table Sample.payloads)
         "cat" "AQID" Sample.empty_world)
  = Js.Resolved (Js.JObj [("score"%string, Js.JNum 11);
                          ("feedback"%string, Js.JStr "Bravo")])
  /\ Shapes.is_score_record
       (Js.JObj [("score"%string, Js.JNum 11);
                 ("feedback"%string, Js.JStr "Bravo")]) = false
  /\ ~ (11 <= 10)%Q.
Proof.
  split; [reflexivity|]. split; [reflexivity|].
  intros H. vm_compute in H. apply H. reflexivity.
Qed.

(** The synthesis call is rejected: one request, no exception, [null]. *)
Lemma generateSpeech_degrades_to_null_witness :
  fst (Gemini.generateSpeech
         (Sample.scripted [Sample.rejected_at 2 "network"])
         "cat" Sample.empty_world)
  = Js.Resolved None
  /\ length (Gemini.issued
       (snd (Gemini.generateSpeech
               (Sample.scripted [Sample.rejected_at 2 "network"])
               "cat" Sample.empty_world))) = 1.
Proof.
  destruct (generateSpeech_degrades_to_null
              (Sample.scripted [Sample.rejected_at 2 "network"])
              "cat" Sample.empty_world) as [Hnull Hissued].
  - exact I.
  - split; [exact Hnull|]. now rewrite Hissued.
Defined.

(** A response without audio resolves with [null] as well. *)
Example generateSpeech_no_audio :
  fst (Gemini.generateSpeech
         (Sample.scripted [Sample.resolved_at 2 (Sample.text_response "ok")])
         "cat" Sample.empty_world)
  = Js.Resolved None.
Proof. reflexivity. Qed.

(** * Further properties *)

(** ** The remote wrappers: success and edge cases *)

Section GeminiEdges.

Import Js Gemini.

Variable ai : nat -> Request -> Promise Response.
Variable JSON_parse : string -> option Json.
Variable to_string : option Json -> string.

(** X1. A resolved image response that carries no candidates is not a
    failure, provided the definition text (or "{}" in its place when it is
    missing or empty) parses to a JSON object: the card is then built with
    an empty image URL, the example and the definition text read from the
    fields of that object. *)
Theorem generateVisualVocab_without_image
    (word : string) (w : World) (defResponse imgResponse : Response)
    (fields : list (string * Json)) :
  outcome (ai (length (issued w)) (defRequest word)) = Resolved defResponse ->
  outcome (ai (S (length (issued w))) (imageRequest word)) = Resolved imgResponse ->
  candidates imgResponse = None ->
  JSON_parse (text_or (text defResponse) "{}") = Some (JObj fields) ->
  exists card,
    fst (generateVisualVocab ai JSON_parse to_string word w) = Resolved card
    /\ imageUrl card = ""%string
    /\ example card = assoc "example" fields
    /\ definition card
       = (to_string (assoc "definition" fields) ++ " 

(Traduction: " ++ to_string (assoc "translation" fields) ++ ")")%string.
Proof.
  intros Hdef Himg Hcand Hparse.
  unfold generateVisualVocab, generateContent. cbn.
  rewrite length_app, Nat.add_1_r.
  unfold promise_all2. rewrite Hdef, Himg. cbn.
  unfold extract_image. rewrite Hcand. cbn.
  unfold parse. rewrite Hparse. cbn.
  eexists. split; [reflexivity|]. cbn. auto.
Qed.

(** X2. An image response whose candidate list is empty makes the whole
    operation fail with a [TypeError], although both calls succeeded. *)
Theorem generateVisualVocab_empty_candidates
    (word : string) (w : World) (defResponse imgResponse : Response) :
  outcome (ai (length (issued w)) (defRequest word)) = Resolved defResponse ->
  outcome (ai (S (length (issued w))) (imageRequest word)) = Resolved imgResponse ->
  candidates imgResponse = Some [] ->
  fst (generateVisualVocab ai JSON_parse to_string word w) = Rejected TypeError.
Proof.
  intros Hdef Himg Hcand.
  unfold generateVisualVocab, generateContent. cbn.
  rewrite length_app, Nat.add_1_r.
  unfold promise_all2. rewrite Hdef, Himg. cbn.
  unfold extract_image. now rewrite Hcand.
Qed.

Lemma get_field_inv (j : Json) (k : string) (v : option Json) :
  get_field j k = Resolved v ->
  match j with
  | JNull => False
  | JObj fields => v = assoc k fields
  | _ => v = None
  end.
Proof. destruct j; cbn; intros H; try discriminate; now injection H as <-. Qed.

(** X3. Whatever the model answers, a card that is returned for a non-empty
    word has a word that is not falsy: the [word] field of the parsed
    definition when that field is truthy, and the word asked for when the
    field is missing or falsy. *)
Theorem generateVisualVocab_word_truthy
    (word : string) (w : World) (card : VocabCard) :
  word <> ""%string ->
  fst (generateVisualVocab ai JSON_parse to_string word w) = Resolved card ->
  truthy (Some (Gemini.word card)) = true
  /\ (Gemini.word card = JStr word
      \/ exists defResponse fields,
           outcome (ai (length (issued w)) (defRequest word)) = Resolved defResponse
           /\ JSON_parse (text_or (text defResponse) "{}") = Some (JObj fields)
           /\ assoc "word" fields = Some (Gemini.word card))
  /\ (forall defResponse fields,
        outcome (ai (length (issued w)) (defRequest word)) = Resolved defResponse ->
        JSON_parse (text_or (text defResponse) "{}") = Some (JObj fields) ->
        (forall j, assoc "word" fields = Some j -> truthy (Some j) = true ->
                   Gemini.word card = j)
        /\ (truthy (assoc "word" fields) = false ->
            Gemini.word card = JStr word)).
Proof.
  intros Hword.
  assert (truthy (Some (JStr word)) = true) as Hfallback.
  { cbn. now destruct (String.eqb_spec word ""). }
  unfold generateVisualVocab, generateContent. cbn [fst issued].
  rewrite length_app, Nat.add_1_r.
  set (p := ai (length (issued w)) (defRequest word)).
  set (q := ai (S (length (issued w))) (imageRequest word)).
  unfold promise_all2.
  destruct (outcome p) as [defResponse|e1] eqn:Hdef;
    destruct (outcome q) as [imgResponse|e2];
    try match goal with
        | |- context [Nat.ltb ?a ?b] => destruct (Nat.ltb a b)
        end;
    cbn [bind]; try discriminate.
  destruct (extract_image imgResponse) as [url|e]; cbn; [|discriminate].
  unfold parse.
  destruct (JSON_parse (text_or (text defResponse) "{}")) as [textData|] eqn:Hparse;
    cbn; [|discriminate].
  destruct (get_field textData "word") as [tWord|e] eqn:Hw; cbn; [|discriminate].
  destruct (get_field textData "example") as [tExample|e]; cbn; [|discriminate].
  destruct (get_field textData "definition") as [tDef|e]; cbn; [|discriminate].
  destruct (get_field textData "translation") as [tTr|e]; cbn; [|discriminate].
  intros [= <-]. cbn [Gemini.word].
  apply get_field_inv in Hw.
  assert (forall d f, Resolved defResponse = Resolved d ->
                      JSON_parse (text_or (text d) "{}") = Some (JObj f) ->
                      tWord = assoc "word" f) as Hread.
  { intros d f [= <-] Hp. rewrite Hparse in Hp. injection Hp as ->. exact Hw. }
  destruct tWord as [j|].
  - destruct (truthy (Some j)) eqn:Htruthy.
    + split; [exact Htruthy|]. split.
      * right. destruct textData; try discriminate; try contradiction.
        exists defResponse, fields. auto.
      * intros d f Hd Hp. pose proof (Hread d f Hd Hp) as Hf. split.
        -- intros j' Hj' _. rewrite Hj' in Hf. now injection Hf.
        -- intros Hfalsy. rewrite <- Hf in Hfalsy.
           change (truthy (Some j) = false) in Hfalsy. congruence.
    + split; [exact Hfallback|]. split; [now left|].
      intros d f Hd Hp. pose proof (Hread d f Hd Hp) as Hf. split.
      * intros j' Hj' Ht. rewrite Hj' in Hf. injection Hf as Hf. subst j'.
        change (truthy (Some j) = true) in Ht. congruence.
      * intros _. reflexivity.
  - split; [exact Hfallback|]. split; [now left|].
    intros d f Hd Hp. pose proof (Hread d f Hd Hp) as Hf. split.
    + intros j' Hj' _. rewrite Hj' in Hf. discriminate.
    + intros _. reflexivity.
Qed.

(** X4. How [checkPronunciation] fails: with the reason of the remote call when
    that is rejected, with "Analysis failed" when the response has no text,
    with a [SyntaxError] when the text is not JSON; in every case one
    request has been issued and nothing is logged. *)
Theorem checkPronunciation_failures
    (targetWord audioBase64 : string) (w : World) :
  let p := ai (length (issued w)) (pronunciationRequest targetWord audioBase64) in
  let r := checkPronunciation ai JSON_parse targetWord audioBase64 w in
  issued (snd r) = issued w ++ [pronunciationRequest targetWord audioBase64]
  /\ console (snd r) = console w
  /\ (forall e, outcome p = Rejected e -> fst r = Rejected e)
  /\ (forall response,
        outcome p = Resolved response ->
        truthy_text (text response) = false ->
        fst r = Rejected (Error "Analysis failed"))
  /\ (forall response t,
        outcome p = Resolved response ->
        text response = Some t -> t <> ""%string -> JSON_parse t = None ->
        fst r = Rejected SyntaxError).
Proof.
  intros p r. subst p r. unfold checkPronunciation, generateContent. cbn.
  split; [reflexivity|]. split; [reflexivity|]. split; [|split].
  - intros e ->. reflexivity.
  - intros response -> Htext. cbn. now rewrite Htext.
  - intros response t -> Ht Hne Hparse. cbn. rewrite Ht. cbn.
    destruct (String.eqb_spec t ""); [contradiction|]. cbn.
    unfold parse. now rewrite Hparse.
Qed.

(** X5. [generateSpeech] hands back audio exactly when the remote call resolved
    and the first part of the first candidate carries inline data; what it
    hands back is never the empty string. *)
Theorem generateSpeech_audio (t : string) (w : World) (s : string) :
  fst (generateSpeech ai t w) = Resolved (Some s)
  <-> s <> ""%string
      /\ exists response,
           outcome (ai (length (issued w)) (speechRequest t)) = Resolved response
           /\ audio_of response = Some s.
Proof.
  unfold generateSpeech, generateContent. cbn.
  destruct (outcome _) as [response|e]; cbn.
  - unfold or_null. destruct (audio_of response) as [a|] eqn:Haudio.
    + destruct (String.eqb_spec a "") as [->|Hne].
      * split; [discriminate|].
        intros (Hs & r & Hr & Ha). congruence.
      * split.
        -- intros [= <-]. eauto.
        -- intros (_ & r & Hr & Ha). congruence.
    + split; [discriminate|]. intros (_ & r & Hr & Ha). congruence.
  - split; [discriminate|]. intros (_ & r & H & _). discriminate.
Qed.

End GeminiEdges.

(** ** Lesson generation *)

Section LessonServiceFacts.

Import Js LessonService.

Variable ai : nat -> Request -> Promise Gemini.Response.
Variable JSON_parse : string -> option Json.

(** X6. [generateLessonPlan] issues one request; it resolves with [j] exactly
    when the response has a non-empty text that parses to [j], passes on
    the reason of a rejected call, and fails with "Failed to generate
    lesson" when the response has no text. *)
Theorem generateLessonPlan_outcomes
    (topic level : string) (issued : list Request) :
  let p := ai (length issued) (lessonRequest topic level) in
  let r := generateLessonPlan ai JSON_parse topic level issued in
  snd r = issued ++ [lessonRequest topic level]
  /\ (forall j,
        fst r = Resolved j
        <-> exists response t,
              outcome p = Resolved response
              /\ Gemini.text response = Some t /\ t <> ""%string
              /\ JSON_parse t = Some j)
  /\ (forall e, outcome p = Rejected e -> fst r = Rejected e)
  /\ (forall response,
        outcome p = Resolved response ->
        truthy_text (Gemini.text response) = false ->
        fst r = Rejected (Error "Failed to generate lesson")).
Proof.
  intros p r. subst p r. unfold generateLessonPlan. cbn.
  split; [reflexivity|]. split; [|split].
  - intros j.
    destruct (outcome _) as [response|e]; cbn.
    + destruct (Gemini.text response) as [t|] eqn:Ht; cbn.
      * destruct (String.eqb_spec t "") as [->|Hne]; cbn.
        -- split; [discriminate|].
           intros (r & t' & [= <-] & Ht' & Hne & _). congruence.
        -- unfold Gemini.parse. split.
           ++ destruct (JSON_parse t) as [j'|] eqn:Hp; [|discriminate].
              intros [= ->]. exists response, t. auto.
           ++ intros (r & t' & [= <-] & Ht' & _ & Hp).
              rewrite Ht in Ht'. injection Ht' as <-. now rewrite Hp.
      * split; [discriminate|].
        intros (r & t' & [= <-] & Ht' & _). congruence.
    + split; [discriminate|]. intros (r & t' & Hr & _). discriminate.
  - intros e ->. reflexivity.
  - intros response -> Htext. cbn. now rewrite Htext.
Qed.

End LessonServiceFacts.

(** ** The quiz score and the lesson history *)

Section LessonScore.

Import Lesson.

Variable JSON_stringify : list LessonResult -> string.

Lemma count_correct_bounds (answers : gmap nat string) (qs : list QuizQuestion)
    (idx acc : nat) :
  acc <= count_correct answers idx acc qs <= acc + length qs.
Proof.
  revert idx acc. induction qs as [|q qs IH]; intros idx acc; cbn.
  - lia.
  - case_bool_decide.
    + specialize (IH (S idx) (S acc)). lia.
    + specialize (IH (S idx) acc). lia.
Qed.

Lemma count_correct_full (answers : gmap nat string) (qs : list QuizQuestion)
    (idx acc : nat) :
  count_correct answers idx acc qs = acc + length qs
  <-> forall i q, qs !! i = Some q ->
                  answers !! (idx + i) = Some (correctAnswer q).
Proof.
  revert idx acc. induction qs as [|q qs IH]; intros idx acc; cbn.
  - split; [|lia]. intros _ i q H. discriminate.
  - case_bool_decide as Hq.
    + rewrite <- Nat.add_succ_comm. rewrite IH. split.
      * intros Hall [|i] q' Hi; cbn in Hi.
        -- injection Hi as <-. now rewrite Nat.add_0_r.
        -- rewrite <- Nat.add_succ_comm. now apply Hall.
      * intros Hall i q' Hi. rewrite Nat.add_succ_comm. now apply Hall.
    + split.
      * intros Hcount.
        pose proof (count_correct_bounds answers qs (S idx) acc). lia.
      * intros Hall. exfalso. apply Hq.
        rewrite <- (Nat.add_0_r idx). now apply Hall.
Qed.

(** X7. The record that [checkAnswers] adds counts the questions of the lesson
    and scores at most that many; the score is full exactly when every
    question has its correct answer selected. *)
Theorem checkAnswers_record (now_id now_ts : nat) (v : View) (l : GeneratedLesson) :
  lesson v = Some l ->
  isSaved v = false ->
  exists r,
    history (checkAnswers JSON_stringify now_id now_ts v) = r :: history v
    /\ totalQuestions r = length (quiz l)
    /\ score r <= totalQuestions r
    /\ (score r = totalQuestions r
        <-> forall i q, quiz l !! i = Some q ->
                        quizAnswers v !! i = Some (correctAnswer q))
    /\ lessonData r = l /\ userAnswers r = quizAnswers v
    /\ topic r = selectedTopic v /\ level r = selectedLevel v.
Proof.
  intros Hl Hs. unfold checkAnswers. rewrite Hl, Hs. cbn.
  eexists. split; [reflexivity|]. cbn.
  split; [reflexivity|]. split.
  - pose proof (count_correct_bounds (quizAnswers v) (quiz l) 0 0). lia.
  - split; [|auto].
    apply (count_correct_full (quizAnswers v) (quiz l) 0 0).
Qed.

(** X8. Saving a lesson and opening the record just saved gives back the view
    as it was after saving. *)
Theorem save_then_load (now_id now_ts : nat) (v : View) (l : GeneratedLesson) :
  lesson v = Some l ->
  isSaved v = false ->
  exists r,
    history (checkAnswers JSON_stringify now_id now_ts v) = r :: history v
    /\ loadHistoryItem r (checkAnswers JSON_stringify now_id now_ts v)
       = checkAnswers JSON_stringify now_id now_ts v.
Proof.
  intros Hl Hs. unfold checkAnswers. rewrite Hl, Hs. cbn.
  eexists. split; [reflexivity|].
  unfold loadHistoryItem. cbn. reflexivity.
Qed.

(** X9. Opening a record of the history and checking the answers again saves
    nothing: the history and the storage stay as they are. *)
Theorem load_then_check (item : LessonResult) (now_id now_ts : nat) (v : View) :
  let v' := checkAnswers JSON_stringify now_id now_ts (loadHistoryItem item v) in
  history v' = history v
  /\ localStorage v' = localStorage v
  /\ lesson v' = Some (lessonData item)
  /\ quizAnswers v' = userAnswers item.
Proof. cbn. auto. Qed.

Lemma filter_twice {A : Type} (P : A -> Prop) `{!forall x, Decision (P x)}
    (l : list A) :
  filter P (filter P l) = filter P l.
Proof.
  induction l as [|x l IH]; [reflexivity|].
  rewrite filter_cons. case_decide as Hx.
  - rewrite filter_cons. case_decide; [now rewrite IH | contradiction].
  - exact IH.
Qed.

Lemma filter_keeps_all {A : Type} (P : A -> Prop) `{!forall x, Decision (P x)}
    (l : list A) :
  (forall x, x ∈ l -> P x) -> filter P l = l.
Proof.
  induction l as [|x l IH]; intros Hall; [reflexivity|].
  rewrite filter_cons. case_decide as Hx.
  - f_equal. apply IH. intros y Hy. apply Hall. now right.
  - exfalso. apply Hx, Hall. now left.
Qed.

(** X10. [deleteHistoryItem] removes every record with the given id and no
    other, keeps the order of the rest, stores what is left, and changes
    nothing more when repeated. *)
Theorem deleteHistoryItem_removes (target : nat) (v : View) :
  let v' := deleteHistoryItem JSON_stringify target v in
  (forall r, r ∈ history v' <-> r ∈ history v /\ id r <> target)
  /\ history v' `sublist_of` history v
  /\ localStorage v' !! "lesson_history"%string
     = Some (JSON_stringify (history v'))
  /\ deleteHistoryItem JSON_stringify target v' = v'
  /\ ((forall r, r ∈ history v -> id r <> target) -> history v' = history v).
Proof.
  cbn. split; [|split; [|split; [|split]]].
  - intros r. rewrite list_elem_of_filter. tauto.
  - apply sublist_filter.
  - apply lookup_insert_eq.
  - unfold deleteHistoryItem. cbn.
    rewrite filter_twice. now rewrite insert_insert_eq.
  - intros Hnone. apply filter_keeps_all. exact Hnone.
Qed.

End LessonScore.

(** ** The lesson page: actions, storage and reloads *)

Section LessonPageFacts.

Import Js Lesson LessonPage.

Variable JSON_parse : string -> option (list LessonResult).
Variable JSON_stringify : list LessonResult -> string.

Lemma count_correct_unanswered (qs : list QuizQuestion) (idx acc : nat) :
  count_correct ∅ idx acc qs = acc.
Proof.
  revert idx acc. induction qs as [|q qs IH]; intros idx acc; cbn; [reflexivity|].
  rewrite lookup_empty. case_bool_decide; [discriminate|]. apply IH.
Qed.

(** X11. A lesson generated anew starts from a clean quiz: checking it at once
    records it with no answers and a score of zero, whatever was answered
    or saved before; after a failed generation there is no lesson, an
    alert is shown and checking records nothing. *)
Theorem generate_then_check (now_id now_ts : nat) (p : Page) :
  (forall d,
      let v' := checkAnswers JSON_stringify now_id now_ts
                  (view (handleGenerate (Resolved d) p)) in
      exists r,
        history v' = r :: history (view p)
        /\ lessonData r = d /\ userAnswers r = ∅ /\ score r = 0
        /\ totalQuestions r = length (quiz d))
  /\ (forall e,
        let p' := handleGenerate (Rejected e) p in
        lesson (view p') = None
        /\ alerts p' = alerts p ++ ["Error generating lesson. Please try again."%string]
        /\ history (checkAnswers JSON_stringify now_id now_ts (view p'))
           = history (view p)
        /\ localStorage (checkAnswers JSON_stringify now_id now_ts (view p'))
           = localStorage (view p)).
Proof.
  split.
  - intros d. cbn. eexists. split; [reflexivity|]. cbn.
    repeat split. apply count_correct_unanswered.
  - intros e. cbn. auto.
Qed.

Lemma act_scores (a : Action) (p : Page) :
  Forall (fun r => score r <= totalQuestions r) (history (view p)) ->
  Forall (fun r => score r <= totalQuestions r)
         (history (view (act JSON_stringify a p))).
Proof.
  intros Hall. destruct a; cbn [act].
  - destruct (on_tab create p && negb (isLoading p)); [|exact Hall]. exact Hall.
  - destruct (on_tab create p && _); exact Hall.
  - destruct (on_tab create p && _); exact Hall.
  - destruct (on_tab create p && _); exact Hall.
  - destruct (on_tab create p && _); [|exact Hall].
    cbn [on_view view]. unfold checkAnswers.
    destruct (lesson (view p)) as [l|]; [|exact Hall].
    destruct (isSaved (view p)); cbn; [exact Hall|].
    constructor; [|exact Hall]. cbn.
    pose proof (count_correct_bounds (quizAnswers (view p)) (quiz l) 0 0). lia.
  - destruct (history (view p) !! row); [|exact Hall].
    destruct (on_tab history_tab p); exact Hall.
  - destruct (history (view p) !! row) as [item|]; [|exact Hall].
    destruct (on_tab history_tab p); [|exact Hall].
    cbn. apply Forall_forall. intros r Hr.
    apply list_elem_of_filter in Hr as [_ Hr].
    rewrite Forall_forall in Hall. now apply Hall.
  - exact Hall.
Qed.

(** X12. Whatever the user does on the page, no record of the history scores
    more than its number of questions, provided the records loaded at the
    start did not. *)
Theorem run_scores_within (actions : list Action) (p : Page) :
  Forall (fun r => score r <= totalQuestions r) (history (view p)) ->
  Forall (fun r => score r <= totalQuestions r)
         (history (view (run JSON_stringify actions p))).
Proof.
  revert p. induction actions as [|a actions IH]; intros p Hall; [exact Hall|].
  cbn. apply IH. now apply act_scores.
Qed.

Lemma act_in_sync (a : Action) (p : Page) :
  localStorage (view p) !! "lesson_history"%string
    = Some (JSON_stringify (history (view p))) ->
  localStorage (view (act JSON_stringify a p)) !! "lesson_history"%string
    = Some (JSON_stringify (history (view (act JSON_stringify a p)))).
Proof.
  intros Hsync. destruct a; cbn [act].
  - destruct (on_tab create p && negb (isLoading p)); exact Hsync.
  - destruct (on_tab create p && _); exact Hsync.
  - destruct (on_tab create p && _); exact Hsync.
  - destruct (on_tab create p && _); exact Hsync.
  - destruct (on_tab create p && _); [|exact Hsync].
    cbn [on_view view]. unfold checkAnswers.
    destruct (lesson (view p)) as [l|]; [|exact Hsync].
    destruct (isSaved (view p)); cbn; [exact Hsync|].
    apply lookup_insert_eq.
  - destruct (history (view p) !! row); [|exact Hsync].
    destruct (on_tab history_tab p); exact Hsync.
  - destruct (history (view p) !! row) as [item|]; [|exact Hsync].
    destruct (on_tab history_tab p); [|exact Hsync].
    cbn. apply lookup_insert_eq.
  - exact Hsync.
Qed.

(** X13. Whatever the user does on the page, what is stored under
    [lesson_history] stays the serialization of the history shown. *)
Theorem run_storage_in_sync (actions : list Action) (p : Page) :
  localStorage (view p) !! "lesson_history"%string
    = Some (JSON_stringify (history (view p))) ->
  localStorage (view (run JSON_stringify actions p)) !! "lesson_history"%string
    = Some (JSON_stringify (history (view (run JSON_stringify actions p)))).
Proof.
  revert p. induction actions as [|a actions IH]; intros p Hsync; [exact Hsync|].
  cbn. apply IH. now apply act_in_sync.
Qed.

(** X14. Reloading the page restores the history from the storage: a stored
    text that parses gives back its records; no entry or an empty one gives
    an empty history; a text that does not parse gives an empty history and
    one logged error. *)
Theorem mount_reads_history (storage : gmap string string) :
  let p := mount JSON_parse storage in
  localStorage (view p) = storage
  /\ lesson (view p) = None /\ isSaved (view p) = false
  /\ selectedTopic (view p) = "Travel Basics"%string
  /\ selectedLevel (view p) = "Beginner"%string
  /\ (forall saved h,
        storage !! "lesson_history"%string = Some saved ->
        saved <> ""%string -> JSON_parse saved = Some h ->
        history (view p) = h /\ console p = [])
  /\ (forall saved,
        storage !! "lesson_history"%string = Some saved ->
        saved <> ""%string -> JSON_parse saved = None ->
        history (view p) = []
        /\ console p = ["Failed to parse history"%string])
  /\ (storage !! "lesson_history"%string = None
      \/ storage !! "lesson_history"%string = Some ""%string ->
      history (view p) = [] /\ console p = []).
Proof.
  cbv zeta. unfold mount. cbn [view console localStorage lesson isSaved
    selectedTopic selectedLevel history].
  split; [reflexivity|]. split; [reflexivity|]. split; [reflexivity|].
  split; [reflexivity|]. split; [reflexivity|]. split; [|split].
  - intros saved h Hs Hne Hp. rewrite Hs. cbn.
    rewrite (proj2 (String.eqb_neq _ _) Hne). cbn. now rewrite Hp.
  - intros saved Hs Hne Hp. rewrite Hs. cbn.
    rewrite (proj2 (String.eqb_neq _ _) Hne). cbn. now rewrite Hp.
  - intros [-> | ->]; cbn; auto.
Qed.

End LessonPageFacts.

(** ** Recorders in order *)

Section CaptureFacts.

Import Js Media Safety.

Context {Env : Type}.
Variable strict_stop : bool.

Lemma released_not_recording (r : MediaRecorder Env) :
  released r -> is_recording r = false.
Proof. intros [Hs _]. unfold is_recording. now rewrite Hs. Qed.

Lemma count_none (l : list (MediaRecorder Env)) :
  (forall j r, l !! j = Some r -> is_recording r = false) ->
  length (List.filter is_recording l) = 0.
Proof.
  induction l as [|x l IH]; intros Hall; [reflexivity|].
  cbn. rewrite (Hall 0 x eq_refl). apply IH.
  intros j r Hj. apply (Hall (S j) r Hj).
Qed.

Lemma count_one (l : list (MediaRecorder Env)) (rid : nat) (r : MediaRecorder Env) :
  l !! rid = Some r ->
  is_recording r = true ->
  (forall j r', j <> rid -> l !! j = Some r' -> is_recording r' = false) ->
  length (List.filter is_recording l) = 1.
Proof.
  revert rid. induction l as [|x l IH]; intros rid Hr Hrec Hothers.
  - discriminate.
  - destruct rid as [|rid]; cbn in Hr.
    + injection Hr as ->. cbn. rewrite Hrec. cbn. f_equal.
      apply count_none. intros j r' Hj. apply (Hothers (S j) r'); [lia | exact Hj].
    + cbn. rewrite (Hothers 0 x); [|lia|reflexivity].
      apply (IH rid Hr Hrec). intros j r' Hne Hj.
      apply (Hothers (S j) r'); [lia | exact Hj].
Qed.

(** In order, the platform records at most one session: one while the
    recording flag is set, none otherwise. *)
Lemma in_order_sessions (b : bool) (c : Capture Env) :
  in_order b c -> active_sessions c = if b then 1 else 0.
Proof.
  unfold in_order, active_sessions. destruct b.
  - intros (rid & _ & (r & Hr & Hs & _) & Hothers).
    apply (count_one _ rid r Hr).
    + unfold is_recording. now rewrite Hs.
    + intros j r' Hne Hj. apply released_not_recording. now apply (Hothers j).
  - intros Hnone. apply count_none. intros j r Hj.
    apply released_not_recording. now apply (Hnone j).
Qed.

Lemma in_order_ext (b : bool) (c c' : Capture Env) :
  recorders c' = recorders c ->
  mediaRecorderRef c' = mediaRecorderRef c ->
  in_order b c -> in_order b c'.
Proof.
  intros Hr Href. unfold in_order, one_recording, none_recording.
  rewrite Hr, Href. auto.
Qed.

Lemma start_new_in_order (env : Env) (c : Capture Env) :
  in_order false c -> in_order true (start_new env c).
Proof.
  intros Hnone. exists (length (recorders c)). split; [reflexivity|]. split.
  - eexists. cbn. rewrite lookup_app_r by lia. rewrite Nat.sub_diag.
    split; [reflexivity|]. auto.
  - intros j r Hne Hj. cbn in Hj.
    apply lookup_app_Some in Hj as [Hj|[Hge Hj]].
    + now apply (Hnone j).
    + destruct (j - length (recorders c)) as [|k] eqn:Hk; [lia|].
      destruct k; discriminate.
Qed.

Lemma stop_in_order (rid : nat) (c : Capture Env) :
  mediaRecorderRef c = Some rid ->
  one_recording c rid ->
  exists r,
    recorders c !! rid = Some r
    /\ state r = recording
    /\ recorder_stop strict_stop rid c
       = Resolved
           {| recorders :=
                <[ rid := {| state := inactive; track_live := track_live r;
                             undelivered := []; captured := captured r |} ]>
                  (recorders c);
              mediaRecorderRef := mediaRecorderRef c;
              chunksRef := chunksRef c;
              queue := queue c ++ [DataAvailable rid (undelivered r); Stop rid];
              blobs := blobs c |}
    /\ forall c1, recorder_stop strict_stop rid c = Resolved c1 ->
                  in_order false (stop_tracks rid c1)
                  /\ mediaRecorderRef (stop_tracks rid c1) = Some rid.
Proof.
  intros Href ((r & Hr & Hs & Hlive) & Hothers).
  pose proof (lookup_lt_Some _ _ _ Hr) as Hlt.
  exists r. split; [exact Hr|]. split; [exact Hs|].
  assert (recorder_stop strict_stop rid c
          = Resolved
              {| recorders :=
                   <[ rid := {| state := inactive; track_live := track_live r;
                                undelivered := []; captured := captured r |} ]>
                     (recorders c);
                 mediaRecorderRef := mediaRecorderRef c;
                 chunksRef := chunksRef c;
                 queue := queue c ++ [DataAvailable rid (undelivered r); Stop rid];
                 blobs := blobs c |}) as Hstop.
  { unfold recorder_stop. now rewrite Hr, Hs. }
  split; [exact Hstop|].
  intros c1 Hc1. rewrite Hstop in Hc1. injection Hc1 as <-.
  unfold stop_tracks. cbn [recorders mediaRecorderRef chunksRef queue blobs].
  rewrite list_lookup_insert_eq by assumption.
  cbn [state track_live undelivered captured recorders mediaRecorderRef].
  split; [|exact Href].
  intros j r' Hj. cbn [recorders] in Hj.
  rewrite list_insert_insert_eq in Hj.
  destruct (decide (j = rid)) as [->|Hne].
  - rewrite list_lookup_insert_eq in Hj by assumption.
    injection Hj as <-. split; reflexivity.
  - rewrite list_lookup_insert_ne in Hj by congruence. now apply (Hothers j).
Qed.

Lemma gather_in_order (b : bool) (rid : nat) (chunk : Blob) (c : Capture Env) :
  in_order b c -> in_order b (gather rid chunk c).
Proof.
  unfold gather.
  destruct (recorders c !! rid) as [r|] eqn:Hr; [|auto].
  destruct (is_recording r && track_live r); [|auto].
  pose proof (lookup_lt_Some _ _ _ Hr) as Hlt.
  assert (forall j r', 
            <[ rid := {| state := state r; track_live := track_live r;
                         undelivered := undelivered r ++ chunk;
                         captured := captured r |} ]> (recorders c) !! j = Some r' ->
            exists r0, recorders c !! j = Some r0
                       /\ state r' = state r0 /\ track_live r' = track_live r0)
    as Hback.
  { intros j r' Hj. destruct (decide (j = rid)) as [->|Hne].
    - rewrite list_lookup_insert_eq in Hj by assumption.
      injection Hj as <-. exists r. auto.
    - rewrite list_lookup_insert_ne in Hj by congruence. exists r'. auto. }
  unfold in_order, one_recording, none_recording, released.
  cbn [recorders mediaRecorderRef].
  destruct b.
  - intros (rid0 & Href & (r0 & Hr0 & Hs0 & Hl0) & Hothers).
    exists rid0. split; [exact Href|]. split.
    + destruct (decide (rid0 = rid)) as [->|Hne].
      * rewrite Hr in Hr0. injection Hr0 as <-.
        eexists. rewrite list_lookup_insert_eq by assumption.
        split; [reflexivity|]. auto.
      * exists r0. rewrite list_lookup_insert_ne by congruence. auto.
    + intros j r' Hne Hj. destruct (Hback j r' Hj) as (r1 & Hr1 & -> & ->).
      now apply (Hothers j).
  - intros Hnone j r' Hj. destruct (Hback j r' Hj) as (r1 & Hr1 & -> & ->).
    now apply (Hnone j).
Qed.

End CaptureFacts.

(** ** The visual dictionary page under its events *)

Section VisualDictPageFacts.

Import Js Media Safety VisualDict VisualDictPage.

Variable strict_stop : bool.
Variable ai : nat -> Gemini.Request -> Promise Gemini.Response.
Variable JSON_parse : string -> option Json.
Variable to_string : option Json -> string.
Variable empty_input : PCM.EmptyInput.

Lemma ondataavailable_keeps {Env : Type} (chunk : Blob) (c : Capture Env) :
  recorders (ondataavailable chunk c) = recorders c
  /\ mediaRecorderRef (ondataavailable chunk c) = mediaRecorderRef c.
Proof. unfold ondataavailable. destruct (Nat.ltb 0 (length chunk)); auto. Qed.

Lemma deliver_keeps (t : Task) (v : View) :
  recorders (capture (deliver ai JSON_parse to_string t v)) = recorders (capture v)
  /\ mediaRecorderRef (capture (deliver ai JSON_parse to_string t v))
     = mediaRecorderRef (capture v)
  /\ isRecording (deliver ai JSON_parse to_string t v) = isRecording v
  /\ card (deliver ai JSON_parse to_string t v) = card v.
Proof.
  destruct t as [rid chunk|rid]; cbn [deliver].
  - cbn. destruct (ondataavailable_keeps chunk (capture v)) as [-> ->]. auto.
  - unfold onstop, assemble.
    cbn [recorders mediaRecorderRef chunksRef queue blobs].
    destruct (recorders (capture v) !! rid) as [[st live und [cd|]]|];
      [|cbn; auto|cbn; auto].
    match goal with
    | |- context [Gemini.checkPronunciation ?a ?b ?c ?d ?e] =>
        destruct (Gemini.checkPronunciation a b c d e) as [[result|e'] w]
    end; cbn; auto.
Qed.

Lemma deliver_all_keeps (ts : list Task) (v : View) :
  let v' := foldl (fun st t => deliver ai JSON_parse to_string t st) v ts in
  recorders (capture v') = recorders (capture v)
  /\ mediaRecorderRef (capture v') = mediaRecorderRef (capture v)
  /\ isRecording v' = isRecording v
  /\ card v' = card v.
Proof.
  revert v. induction ts as [|t ts IH]; intros v; cbn; [auto|].
  destruct (IH (deliver ai JSON_parse to_string t v)) as (-> & -> & -> & ->).
  apply deliver_keeps.
Qed.

Lemma drain_keeps (v : View) :
  recorders (capture (drain ai JSON_parse to_string v)) = recorders (capture v)
  /\ mediaRecorderRef (capture (drain ai JSON_parse to_string v))
     = mediaRecorderRef (capture v)
  /\ isRecording (drain ai JSON_parse to_string v) = isRecording v
  /\ card (drain ai JSON_parse to_string v) = card v.
Proof.
  unfold drain.
  destruct (deliver_all_keeps (queue (capture v))
              (set_capture (set_queue [] (capture v)) v)) as (-> & -> & -> & ->).
  cbn. auto.
Qed.

(** With the recorders in order, the stop click goes through: it throws
    nothing, also where stopping an inactive recorder would, and leaves
    every recorder released. *)
Lemma stopRecording_in_order (v : View) :
  in_order (isRecording v) (capture v) ->
  snd (stopRecording strict_stop v) = Resolved tt
  /\ isRecording (fst (stopRecording strict_stop v)) = false
  /\ in_order false (capture (fst (stopRecording strict_stop v))).
Proof.
  intros Hord. unfold stopRecording.
  destruct (isRecording v) eqn:Hrec.
  - destruct Hord as (rid & Href & Hone). rewrite Href.
    destruct (stop_in_order strict_stop rid (capture v) Href Hone)
      as (r & _ & _ & Hstop & Hafter).
    rewrite Hstop. cbn. split; [reflexivity|]. split; [reflexivity|].
    apply (Hafter _ Hstop).
  - destruct (mediaRecorderRef (capture v)); cbn; rewrite ?Hrec; auto.
Qed.

Lemma recordButton_in_order (mic : Settled unit) (v : View) :
  in_order (isRecording v) (capture v) ->
  in_order (isRecording (fst (recordButton strict_stop mic v)))
           (capture (fst (recordButton strict_stop mic v))).
Proof.
  intros Hord. unfold recordButton.
  destruct (isRecording v) eqn:Hrec.
  - rewrite <- Hrec in Hord.
    destruct (stopRecording_in_order v Hord) as (_ & -> & Hafter). exact Hafter.
  - destruct mic as [[]|e]; cbn.
    + now apply start_new_in_order.
    + now rewrite Hrec.
Qed.

Lemma step_in_order (e : Event) (p : Page) :
  in_order (isRecording (view p)) (capture (view p)) ->
  in_order (isRecording (view (step strict_stop ai JSON_parse to_string empty_input e p)))
           (capture (view (step strict_stop ai JSON_parse to_string empty_input e p))).
Proof.
  intros Hord. destruct e as [w| | |mic|rid chunk|]; cbn [step].
  - exact Hord.
  - unfold handleSubmit. destruct (negb (Chat.nonblank (word p))); [exact Hord|].
    match goal with
    | |- context [Gemini.generateVisualVocab ?a ?b ?c ?d ?e] =>
        destruct (Gemini.generateVisualVocab a b c d e) as [r w]
    end. exact Hord.
  - destruct (card_shown p && negb (isTTSLoading p)); [|exact Hord].
    unfold handleSpeak. destruct (card (view p)) as [cd|]; [|exact Hord].
    match goal with
    | |- context [Gemini.generateSpeech ?a ?b ?c] =>
        destruct (Gemini.generateSpeech a b c) as [[base64|e] w]
    end; cbn.
    + destruct (truthy_text base64);
        [destruct (speak empty_input (text_or base64 ""))|]; exact Hord.
    + exact Hord.
  - destruct (card_shown p); [|exact Hord].
    cbn. now apply recordButton_in_order.
  - cbn. now apply gather_in_order.
  - cbn. destruct (drain_keeps (view p)) as (Hr & Href & -> & _).
    now apply (in_order_ext _ (capture (view p))).
Qed.

(** X15. Whatever happens on the page (typing, submitting, the speaker, the
    record button, microphone data, the event loop), the recorders stay in
    order: one recorder records, from a live track, exactly while the view
    says it is recording, none otherwise, every other recorder being
    inactive with its microphone track stopped; and the stop click throws
    nothing. *)
Theorem visual_dict_recorders_in_order (events : list Event) (p : Page) :
  in_order (isRecording (view p)) (capture (view p)) ->
  let p' := run strict_stop ai JSON_parse to_string empty_input events p in
  in_order (isRecording (view p')) (capture (view p'))
  /\ active_sessions (capture (view p'))
     = (if isRecording (view p') then 1 else 0)
  /\ snd (stopRecording strict_stop (view p')) = Resolved tt.
Proof.
  revert p. induction events as [|e events IH]; intros p Hord.
  - cbn. split; [exact Hord|]. split; [now apply in_order_sessions|].
    now apply stopRecording_in_order.
  - cbn. apply IH. now apply step_in_order.
Qed.

End VisualDictPageFacts.

(** ** From the microphone to the pronunciation request *)

Section VisualDictRecording.

Import Js Media VisualDict.

Variable strict_stop : bool.
Variable ai : nat -> Gemini.Request -> Promise Gemini.Response.
Variable JSON_parse : string -> option Json.
Variable to_string : option Json -> string.
Variable empty_input : PCM.EmptyInput.

(** Stopping a recording and letting the event loop run hands everything
    the recorder gathered, Base64-encoded, to one pronunciation request
    for the word of the card the recording was started on. *)
Lemma stop_then_drain_analyses (v : View) rid r cd :
  mediaRecorderRef (capture v) = Some rid ->
  isRecording v = true ->
  recorders (capture v) !! rid = Some r ->
  state r = recording ->
  queue (capture v) = [] ->
  captured r = Some cd ->
  let blob := concat (chunksRef (capture v)) ++ undelivered r in
  let call :=
    Gemini.checkPronunciation ai JSON_parse
      (to_string (Some (Gemini.word cd))) (blobToBase64 blob) (world v) in
  let v' := drain ai JSON_parse to_string (fst (stopRecording strict_stop v)) in
  Gemini.issued (world v')
  = Gemini.issued (world v)
    ++ [Gemini.pronunciationRequest (to_string (Some (Gemini.word cd)))
          (blobToBase64 blob)]
  /\ blobs (capture v') = blobs (capture v) ++ [blob]
  /\ queue (capture v') = []
  /\ isRecording v' = false /\ isAnalyzing v' = false
  /\ pronunciationResult v'
     = match fst call with
       | Resolved result => Some result
       | Rejected _ => pronunciationResult v
       end
  /\ alerts v'
     = match fst call with
       | Resolved _ => alerts v
       | Rejected _ => alerts v ++ ["Erreur lors de l'analyse."%string]
       end.
Proof.
  intros Href Hrec Hr Hstate Hq Hcap blob call v'.
  pose proof (lookup_lt_Some _ _ _ Hr) as Hlt.
  subst v'. unfold stopRecording. rewrite Href, Hrec.
  assert (recorder_stop strict_stop rid (capture v)
          = Resolved
              {| recorders :=
                   <[ rid := {| state := inactive; track_live := track_live r;
                                undelivered := []; captured := captured r |} ]>
                     (recorders (capture v));
                 mediaRecorderRef := mediaRecorderRef (capture v);
                 chunksRef := chunksRef (capture v);
                 queue := queue (capture v)
                          ++ [DataAvailable rid (undelivered r); Stop rid];
                 blobs := blobs (capture v) |}) as ->.
  { unfold recorder_stop. now rewrite Hr, Hstate. }
  rewrite Hq. cbn [fst app].
  unfold stop_tracks. cbn [recorders mediaRecorderRef chunksRef queue blobs].
  rewrite list_lookup_insert_eq by assumption.
  cbn [state track_live undelivered captured].
  rewrite list_insert_insert_eq.
  unfold drain, set_queue, set_capture. cbn [capture queue foldl deliver].
  unfold set_capture.
  cbn [capture queue recorders mediaRecorderRef chunksRef blobs card
       isRecording isAnalyzing pronunciationResult world alerts].
  set (c0 := {| recorders := <[ rid := {| state := inactive; track_live := false;
                                undelivered := []; captured := captured r |} ]>
                     (recorders (capture v));
                mediaRecorderRef := mediaRecorderRef (capture v);
                chunksRef := chunksRef (capture v);
                queue := [];
                blobs := blobs (capture v) |}).
  assert (concat (chunksRef (ondataavailable (undelivered r) c0)) = blob
          /\ recorders (ondataavailable (undelivered r) c0)
             = <[ rid := {| state := inactive; track_live := false;
                                undelivered := []; captured := captured r |} ]>
                     (recorders (capture v))
          /\ blobs (ondataavailable (undelivered r) c0) = blobs (capture v)
          /\ queue (ondataavailable (undelivered r) c0) = [])
    as (Hblob & Hrecs & Hblobs & Hqueue).
  { unfold ondataavailable, blob, c0.
    destruct (undelivered r) as [|x d]; cbn.
    - rewrite app_nil_r. auto.
    - rewrite concat_app. cbn. rewrite app_nil_r. auto. }
  unfold onstop, assemble.
  cbn [capture queue recorders mediaRecorderRef chunksRef blobs card
       isRecording isAnalyzing pronunciationResult world alerts].
  fold c0. rewrite Hblob, Hrecs, Hblobs, Hqueue.
  rewrite list_lookup_insert_eq by assumption.
  cbv beta iota. rewrite Hcap. fold call.
  assert (Gemini.issued (snd call)
          = Gemini.issued (world v)
            ++ [Gemini.pronunciationRequest (to_string (Some (Gemini.word cd)))
                  (blobToBase64 blob)]) as Hissued.
  { reflexivity. }
  destruct call as [[result|e] w]; cbn in Hissued |- *; rewrite Hissued; auto 10.
Qed.

Lemma gathers_append {Env : Type} (recs : list (MediaRecorder Env)) (env : Env)
    (ref : option nat) (chunks q : list Blob) (tasks : list Task)
    (bs : list Blob) (und : Blob) :
  foldl (fun c ch => gather (length recs) ch c)
        {| recorders := recs ++ [ {| state := recording; track_live := true;
                                     undelivered := und; captured := env |} ];
           mediaRecorderRef := ref; chunksRef := q; queue := tasks;
           blobs := bs |}
        chunks
  = {| recorders := recs ++ [ {| state := recording; track_live := true;
                                 undelivered := und ++ concat chunks;
                                 captured := env |} ];
       mediaRecorderRef := ref; chunksRef := q; queue := tasks; blobs := bs |}.
Proof.
  revert und. induction chunks as [|ch chunks IH]; intros und.
  - cbn. now rewrite app_nil_r.
  - cbn [foldl concat]. unfold gather at 2. cbn [recorders].
    rewrite lookup_app_r by lia. rewrite Nat.sub_diag. cbn.
    rewrite insert_app_r_alt by lia. rewrite Nat.sub_diag. cbn.
    rewrite IH. now rewrite <- app_assoc.
Qed.

Lemma run_microphone (rid : nat) (chunks : list Blob)
    (c : Capture (option Gemini.VocabCard)) (v : View) (p : VisualDictPage.Page) :
  VisualDictPage.run strict_stop ai JSON_parse to_string empty_input
    (map (VisualDictPage.Microphone rid) chunks)
    (VisualDictPage.with_view (set_capture c v) p)
  = VisualDictPage.with_view
      (set_capture (foldl (fun c ch => gather rid ch c) c chunks) v) p.
Proof.
  revert c. induction chunks as [|ch chunks IH]; intros c; [reflexivity|].
  cbn [map foldl VisualDictPage.run]. unfold VisualDictPage.run in IH.
  rewrite <- IH. reflexivity.
Qed.

(** X16. A whole recording, from the click that starts it to the event loop
    that follows the click that stops it: whatever the microphone delivered
    in between, in however many pieces, is sent in one pronunciation
    request, Base64-encoded, for the word of the card; the view ends up not
    recording and not analysing. *)
Theorem recording_reaches_the_tutor (chunks : list Blob) (mic : Settled unit)
    (p : VisualDictPage.Page) (cd : Gemini.VocabCard) :
  card (VisualDictPage.view p) = Some cd ->
  VisualDictPage.isLoading p = false ->
  isRecording (VisualDictPage.view p) = false ->
  queue (capture (VisualDictPage.view p)) = [] ->
  let rid := length (recorders (capture (VisualDictPage.view p))) in
  let p' :=
    VisualDictPage.run strict_stop ai JSON_parse to_string empty_input
      (VisualDictPage.ClickRecord (Resolved tt)
         :: map (VisualDictPage.Microphone rid) chunks
         ++ [VisualDictPage.ClickRecord mic; VisualDictPage.EventLoop]) p in
  Gemini.issued (world (VisualDictPage.view p'))
  = Gemini.issued (world (VisualDictPage.view p))
    ++ [Gemini.pronunciationRequest (to_string (Some (Gemini.word cd)))
          (blobToBase64 (concat chunks))]
  /\ blobs (capture (VisualDictPage.view p'))
     = blobs (capture (VisualDictPage.view p)) ++ [concat chunks]
  /\ isRecording (VisualDictPage.view p') = false
  /\ isAnalyzing (VisualDictPage.view p') = false.
Proof.
  intros Hcard Hload Hrec Hq rid p'.
  set (v := VisualDictPage.view p) in *.
  pose (rN := {| state := recording; track_live := true;
                 undelivered := concat chunks; captured := Some cd |}).
  pose (cN := {| recorders := recorders (capture v) ++ [rN];
                 mediaRecorderRef := Some (length (recorders (capture v)));
                 chunksRef := []; queue := queue (capture v);
                 blobs := blobs (capture v) |}).
  pose (v1 := {| card := Some cd; isRecording := true;
                 isAnalyzing := isAnalyzing v; pronunciationResult := None;
                 capture := start_new (Some cd) (capture v);
                 world := world v; alerts := alerts v |}).
  assert (VisualDictPage.view p'
          = drain ai JSON_parse to_string
              (fst (stopRecording strict_stop (set_capture cN v1)))) as Hview.
  { subst p'. unfold VisualDictPage.run. cbn [foldl].
    assert (VisualDictPage.card_shown p = true) as Hshown.
    { unfold VisualDictPage.card_shown. fold v. rewrite Hcard, Hload. reflexivity. }
    cbn [VisualDictPage.step]. rewrite Hshown.
    unfold recordButton. fold v. rewrite Hrec. cbn [startRecording fst].
    rewrite Hcard. fold v1.
    rewrite foldl_app.
    change (VisualDictPage.with_view v1 p)
      with (VisualDictPage.with_view (set_capture (capture v1) v1) p).
    pose proof (run_microphone rid chunks (capture v1) v1 p) as Hmic.
    unfold VisualDictPage.run in Hmic. rewrite Hmic. clear Hmic.
    assert (foldl (fun c ch => gather rid ch c) (capture v1) chunks = cN) as ->.
    { subst rid. fold v. unfold v1, start_new. cbn [capture].
      now rewrite gathers_append. }
    cbn [foldl VisualDictPage.step].
    assert (VisualDictPage.card_shown
              (VisualDictPage.with_view (set_capture cN v1) p) = true) as ->.
    { unfold VisualDictPage.card_shown. cbn. rewrite Hload. reflexivity. }
    cbn [VisualDictPage.view VisualDictPage.with_view].
    unfold recordButton.
    change (isRecording (set_capture cN v1)) with true. reflexivity. }
  rewrite Hview.
  pose proof (stop_then_drain_analyses (set_capture cN v1)
                (length (recorders (capture v))) rN cd) as H.
  cbv zeta in H.
  change (concat (chunksRef (capture (set_capture cN v1))) ++ undelivered rN)
    with (concat chunks) in H.
  change (world (set_capture cN v1)) with (world v) in H.
  change (blobs (capture (set_capture cN v1))) with (blobs (capture v)) in H.
  destruct H as (Hissued & Hblobs & _ & Hrec' & Han & _); try reflexivity.
  { cbn. rewrite lookup_app_r by lia. now rewrite Nat.sub_diag. }
  { exact Hq. }
  auto.
Qed.

End VisualDictRecording.

(** ** What [trim] strips *)

Section Blank.

Import Chat.

Lemma ascii_of_code (c : ascii) (n : nat) :
  nat_of_ascii c = n -> c = ascii_of_nat n.
Proof. intros <-. symmetry. apply ascii_nat_embedding. Qed.

Lemma is_space_white (c : ascii) :
  is_space c = true -> In (String c EmptyString) white_space.
Proof.
  unfold is_space. cbv zeta. intros H.
  assert (nat_of_ascii c = 9 \/ nat_of_ascii c = 10 \/ nat_of_ascii c = 11
          \/ nat_of_ascii c = 12 \/ nat_of_ascii c = 13
          \/ nat_of_ascii c = 32) as Hc.
  { apply orb_prop in H as [H|H].
    - apply Nat.eqb_eq in H. lia.
    - apply andb_prop in H as [H1 H2].
      apply Nat.leb_le in H1. apply Nat.leb_le in H2. lia. }
  repeat destruct Hc as [Hc|Hc];
    rewrite (ascii_of_code c _ Hc); vm_compute; tauto.
Qed.

Lemma is_space2_white (c1 c2 : ascii) :
  is_space2 c1 c2 = true ->
  In (String c1 (String c2 EmptyString)) white_space.
Proof.
  unfold is_space2. intros H. apply andb_prop in H as [H1 H2].
  apply Nat.eqb_eq in H1. apply Nat.eqb_eq in H2.
  rewrite (ascii_of_code c1 _ H1), (ascii_of_code c2 _ H2).
  vm_compute. tauto.
Qed.

Lemma is_space3_white (c1 c2 c3 : ascii) :
  is_space3 c1 c2 c3 = true ->
  In (String c1 (String c2 (String c3 EmptyString))) white_space.
Proof.
  unfold is_space3. cbv zeta. intros H.
  assert (exists a b c,
             nat_of_ascii c1 = a /\ nat_of_ascii c2 = b /\ nat_of_ascii c3 = c
             /\ In [a; b; c]
                  [ [225; 154; 128];
                    [226; 128; 128]; [226; 128; 129]; [226; 128; 130];
                    [226; 128; 131]; [226; 128; 132]; [226; 128; 133];
                    [226; 128; 134]; [226; 128; 135]; [226; 128; 136];
                    [226; 128; 137]; [226; 128; 138];
                    [226; 128; 168]; [226; 128; 169]; [226; 128; 175];
                    [226; 129; 159]; [227; 128; 128]; [239; 187; 191] ])
    as (a & b & c & Ha & Hb & Hc & Hin).
  { exists (nat_of_ascii c1), (nat_of_ascii c2), (nat_of_ascii c3).
    split; [reflexivity|]. split; [reflexivity|]. split; [reflexivity|].
    repeat match type of H with
           | (_ || _)%bool = true => apply orb_prop in H as [H|H]
           end;
      repeat match goal with
             | H : (_ && _)%bool = true |- _ => apply andb_prop in H as [? ?]
             | H : (_ || _)%bool = true |- _ => apply orb_prop in H as [H|H]
             | H : Nat.eqb _ _ = true |- _ => apply Nat.eqb_eq in H; rewrite H
             end.
    all: try (cbn [In]; tauto).
    match goal with
    | H1 : Nat.leb 128 _ = true, H2 : Nat.leb _ 138 = true |- _ =>
        apply Nat.leb_le in H1; apply Nat.leb_le in H2
    end.
    assert (nat_of_ascii c3 = 128 \/ nat_of_ascii c3 = 129
            \/ nat_of_ascii c3 = 130 \/ nat_of_ascii c3 = 131
            \/ nat_of_ascii c3 = 132 \/ nat_of_ascii c3 = 133
            \/ nat_of_ascii c3 = 134 \/ nat_of_ascii c3 = 135
            \/ nat_of_ascii c3 = 136 \/ nat_of_ascii c3 = 137
            \/ nat_of_ascii c3 = 138) as Hc by lia.
    repeat destruct Hc as [Hc|Hc]; rewrite Hc; cbn [In]; tauto. }
  rewrite (ascii_of_code c1 _ Ha), (ascii_of_code c2 _ Hb),
    (ascii_of_code c3 _ Hc).
  cbn [In] in Hin.
  repeat destruct Hin as [Hin|Hin];
    try (injection Hin as <- <- <-; vm_compute; tauto).
  contradiction.
Qed.

Lemma nonblank_skips (w rest : string) :
  In w white_space -> nonblank (w ++ rest) = nonblank rest.
Proof.
  unfold white_space. cbn [map In]. intros H.
  repeat destruct H as [<-|H]; try reflexivity. contradiction.
Qed.

(** A word is blank, in the sense that [word.trim()] is empty, exactly when
    it is made of the code points that [trim] strips and of nothing
    else. *)
Lemma nonblank_false_iff (s : string) :
  nonblank s = false
  <-> exists ws, Forall (fun w => In w white_space) ws
                 /\ s = foldr String.append EmptyString ws.
Proof.
  split.
  - remember (String.length s) as n eqn:Hn. revert s Hn.
    induction n as [n IH] using lt_wf_ind. intros s -> H.
    destruct s as [|c1 s1].
    { exists []. split; [constructor | reflexivity]. }
    cbn [nonblank] in H. destruct (is_space c1) eqn:E1.
    { destruct (IH (String.length s1) ltac:(cbn; lia) s1 eq_refl H)
        as (ws & Hws & ->).
      exists (String c1 EmptyString :: ws). split; [|reflexivity].
      constructor; [now apply is_space_white | exact Hws]. }
    destruct s1 as [|c2 s2]; [discriminate|].
    destruct (is_space2 c1 c2) eqn:E2.
    { destruct (IH (String.length s2) ltac:(cbn; lia) s2 eq_refl H)
        as (ws & Hws & ->).
      exists (String c1 (String c2 EmptyString) :: ws). split; [|reflexivity].
      constructor; [now apply is_space2_white | exact Hws]. }
    destruct s2 as [|c3 s3]; [discriminate|].
    destruct (is_space3 c1 c2 c3) eqn:E3; [|discriminate].
    destruct (IH (String.length s3) ltac:(cbn; lia) s3 eq_refl H)
      as (ws & Hws & ->).
    exists (String c1 (String c2 (String c3 EmptyString)) :: ws).
    split; [|reflexivity].
    constructor; [now apply is_space3_white | exact Hws].
  - intros (ws & Hws & ->). induction Hws as [|w ws Hw _ IH].
    + reflexivity.
    + cbn [foldr]. now rewrite nonblank_skips.
Qed.

(** Blank and non-blank words: spaces, tabs and line ends, the no-break
    space, the ideographic space, the byte order mark and the line
    separator are stripped; a letter, an accented letter and the zero-width
    space are not. *)
Example nonblank_examples :
  nonblank EmptyString = false
  /\ nonblank (utf8 [32; 9; 10; 13; 32]) = false
  /\ nonblank (utf8 [194; 160]) = false
  /\ nonblank (utf8 [32; 227; 128; 128; 239; 187; 191; 226; 128; 168]) = false
  /\ nonblank (utf8 [32; 99; 97; 116; 32]) = true
  /\ nonblank (utf8 [194; 160; 195; 169]) = true
  /\ nonblank (utf8 [226; 128; 139]) = true.
Proof. conjuncts; reflexivity. Qed.

End Blank.

(** ** Submitting a word and listening to it *)

Section VisualDictForm.

Import Js VisualDict VisualDictPage.

Variable ai : nat -> Gemini.Request -> Promise Gemini.Response.
Variable JSON_parse : string -> option Json.
Variable to_string : option Json -> string.
Variable empty_input : PCM.EmptyInput.

(** X17. Submitting a blank word, one that [trim] leaves empty, does
    nothing and asks nothing of the API.
    Submitting any other word issues the definition and the image request
    and clears the previous pronunciation result; when the card cannot be
    built, in particular when either call is rejected, the view is left
    without a card, the previous one included, and shows one alert;
    otherwise it shows the new card.  The recorder is not touched. *)
Theorem handleSubmit_outcomes (p : Page) :
  (Chat.nonblank (word p) = false ->
   handleSubmit ai JSON_parse to_string p = p)
  /\ (Chat.nonblank (word p) = true ->
      let p' := handleSubmit ai JSON_parse to_string p in
      let call := Gemini.generateVisualVocab ai JSON_parse to_string (word p)
                    (world (view p)) in
      Gemini.issued (world (view p'))
      = Gemini.issued (world (view p))
        ++ [Gemini.defRequest (word p); Gemini.imageRequest (word p)]
      /\ isLoading p' = false
      /\ pronunciationResult (view p') = None
      /\ capture (view p') = capture (view p)
      /\ isRecording (view p') = isRecording (view p)
      /\ (forall c, fst call = Resolved c ->
            card (view p') = Some c /\ alerts (view p') = alerts (view p))
      /\ (forall e, fst call = Rejected e ->
            card (view p') = None
            /\ alerts (view p')
               = alerts (view p) ++ ["Failed to generate visual card."%string])
      /\ (is_rejected (outcome (ai (length (Gemini.issued (world (view p))))
                                   (Gemini.defRequest (word p)))) = true
          \/ is_rejected (outcome (ai (S (length (Gemini.issued (world (view p)))))
                                      (Gemini.imageRequest (word p)))) = true ->
          card (view p') = None)).
Proof.
  split.
  - intros Hblank. unfold handleSubmit. now rewrite Hblank.
  - intros Hword p' call. subst p'. unfold handleSubmit. rewrite Hword. cbn [negb].
    fold call.
    assert (Gemini.issued (snd call)
            = Gemini.issued (world (view p))
              ++ [Gemini.defRequest (word p); Gemini.imageRequest (word p)])
      as Hissued.
    { subst call. unfold Gemini.generateVisualVocab, Gemini.generateContent. cbn.
      now rewrite <- app_assoc. }
    assert (is_rejected (outcome (ai (length (Gemini.issued (world (view p))))
                                     (Gemini.defRequest (word p)))) = true
            \/ is_rejected (outcome (ai (S (length (Gemini.issued (world (view p)))))
                                        (Gemini.imageRequest (word p)))) = true ->
            exists e, fst call = Rejected e) as Hfail.
    { intros Hrej. subst call.
      destruct (promise_all2_rejects _ _ Hrej) as (e & He & _).
      exists e. unfold Gemini.generateVisualVocab, Gemini.generateContent. cbn.
      rewrite length_app, Nat.add_1_r. now rewrite He. }
    destruct call as [[c|e] w]; cbn in Hissued, Hfail |- *; conjuncts;
      try reflexivity; try exact Hissued.
    + intros c' [= <-]. split; reflexivity.
    + discriminate.
    + intros Hrej. destruct (Hfail Hrej) as (e & He). discriminate.
    + discriminate.
    + intros e' _. split; reflexivity.
Qed.

(** Only the empty text decodes to no bytes. *)
Lemma decode_empty_only (s : string) :
  Base64.decode s = Ok [] -> s = EmptyString.
Proof.
  destruct s as [|c0 [|c1 [|c2 [|c3 rest]]]]; try discriminate; [reflexivity|].
  cbn [Base64.decode]. destruct rest as [|c4 rest].
  - unfold Base64.decode_last, Base64.decode_quad. cbv zeta.
    repeat case_match; try discriminate; simplify_eq;
      intros Hnil; discriminate Hnil.
  - unfold Base64.decode_quad. cbv zeta.
    repeat case_match; try discriminate; simplify_eq;
      destruct (Base64.decode (String c4 rest));
      intros Hnil; discriminate Hnil.
Qed.

(** The speaker button never hands the decoder an empty byte sequence: what
    section 4.2 leaves open about it does not show in the view. *)
Lemma speak_any_choice (c1 c2 : PCM.EmptyInput) (base64 : string) :
  base64 <> EmptyString -> speak c1 base64 = speak c2 base64.
Proof.
  intros Hne. unfold speak.
  destruct (Base64.decode base64) as [bytes|e] eqn:Hdec; [|reflexivity].
  destruct bytes as [|b bytes].
  - now apply decode_empty_only in Hdec.
  - unfold PCM.decodeAudioData.
    now destruct c1, c2; cbn [PCM.refused]; rewrite ?bool_decide_eq_false_2.
Qed.

Lemma handleSpeak_any_choice (c1 c2 : PCM.EmptyInput) (p : Page) :
  handleSpeak ai to_string c1 p = handleSpeak ai to_string c2 p.
Proof.
  unfold handleSpeak. destruct (card (view p)) as [cd|]; [|reflexivity].
  destruct (Gemini.generateSpeech _ _ _) as [[[base64|]|e] w]; try reflexivity.
  cbn [truthy_text text_or].
  destruct (String.eqb_spec base64 ""); [reflexivity|]. cbn [negb].
  now rewrite (speak_any_choice c1 c2 base64).
Qed.

Lemma run_any_choice (strict_stop : bool) (c1 c2 : PCM.EmptyInput)
    (events : list Event) (p : Page) :
  run strict_stop ai JSON_parse to_string c1 events p
  = run strict_stop ai JSON_parse to_string c2 events p.
Proof.
  unfold run. revert p. induction events as [|e events IH]; intros p.
  - reflexivity.
  - cbn [foldl].
    assert (step strict_stop ai JSON_parse to_string c1 e p
            = step strict_stop ai JSON_parse to_string c2 e p) as ->.
    { destruct e; try reflexivity. cbn [step].
      destruct (_ && _); [apply handleSpeak_any_choice | reflexivity]. }
    apply IH.
Qed.

(** X18. The speaker never throws and always gives the button back.  It plays
    at most one buffer, of one channel at 24000 Hz, and plays it exactly
    when speech came back and decodes; when [generateSpeech] gives [null]
    nothing is played and nothing is logged; a payload that does not
    decode is logged and nothing is played. *)
Theorem handleSpeak_outcomes (p : Page) (cd : Gemini.VocabCard) :
  card (view p) = Some cd ->
  let p' := handleSpeak ai to_string empty_input p in
  let call := Gemini.generateSpeech ai (to_string (Some (Gemini.word cd)))
                (world (view p)) in
  isTTSLoading p' = false
  /\ card (view p') = card (view p)
  /\ capture (view p') = capture (view p)
  /\ Gemini.issued (world (view p'))
     = Gemini.issued (world (view p))
       ++ [Gemini.speechRequest (to_string (Some (Gemini.word cd)))]
  /\ (forall base64 buf,
        fst call = Resolved (Some base64) -> speak empty_input base64 = Ok buf ->
        played p' = played p ++ [buf]
        /\ PCM.channelCount buf = 1%Z /\ PCM.sampleRate buf = 24000%Z
        /\ Gemini.console (world (view p')) = Gemini.console (snd call))
  /\ (forall base64 e,
        fst call = Resolved (Some base64) -> speak empty_input base64 = Err e ->
        played p' = played p
        /\ Gemini.console (world (view p'))
           = Gemini.console (snd call) ++ [describe_kind e])
  /\ (fst call = Resolved None ->
      played p' = played p
      /\ Gemini.console (world (view p')) = Gemini.console (snd call)).
Proof.
  intros Hcard p' call. subst p'. unfold handleSpeak. rewrite Hcard. fold call.
  assert (Gemini.issued (snd call)
          = Gemini.issued (world (view p))
            ++ [Gemini.speechRequest (to_string (Some (Gemini.word cd)))])
    as Hissued by apply generateSpeech_total.
  assert (forall s, fst call = Resolved (Some s) -> s <> ""%string) as Hne.
  { intros s. subst call. unfold Gemini.generateSpeech, Gemini.generateContent.
    cbn. destruct (outcome _) as [response|e]; cbn; [|discriminate].
    unfold Gemini.or_null. destruct (Gemini.audio_of response) as [a|]; [|discriminate].
    destruct (String.eqb_spec a ""); [discriminate|]. now intros [= <-]. }
  destruct call as [[[base64|]|e] w]; cbn in Hissued, Hne |- *.
  - specialize (Hne base64 eq_refl).
    rewrite (proj2 (String.eqb_neq _ _) Hne). cbn.
    destruct (speak empty_input base64) as [buf|k] eqn:Hspeak; cbn; conjuncts;
      try reflexivity; try exact Hissued; try discriminate.
    + intros b buf' [= <-] Hb. rewrite Hspeak in Hb. injection Hb as <-.
      conjuncts; try reflexivity.
      * unfold speak in Hspeak. destruct (Base64.decode base64); [|discriminate].
        unfold PCM.decodeAudioData in Hspeak.
        destruct (_ || _); [discriminate|]. now injection Hspeak as <-.
      * unfold speak in Hspeak. destruct (Base64.decode base64); [|discriminate].
        unfold PCM.decodeAudioData in Hspeak.
        destruct (_ || _); [discriminate|]. now injection Hspeak as <-.
    + intros b k' [= <-] Hb. congruence.
    + intros b buf' [= <-] Hb. congruence.
    + intros b k' [= <-] Hb. rewrite Hspeak in Hb. injection Hb as <-.
      split; reflexivity.
  - conjuncts; try reflexivity; try exact Hissued; try discriminate.
    intros _. split; reflexivity.
  - conjuncts; try reflexivity; try exact Hissued; discriminate.
Qed.

End VisualDictForm.

(** ** The chat view under its events *)

Section ChatPageFacts.

Import Js Media Safety Chat ChatPage.

Variable strict_stop : bool.
Variable sendMessage : list Gemini.Part -> Settled (option string).
Variable createObjectURL : Blob -> string.

Lemma handleSend_keeps (env : Closure) (t : option string)
    (a : option Attachment) (now later : nat) (v : View) :
  let v' := handleSend sendMessage env t a now later v in
  capture v' = capture v /\ isRecording v' = isRecording v
  /\ timerRef v' = timerRef v /\ intervals v' = intervals v
  /\ handles v' = handles v /\ chat v' = chat v.
Proof.
  cbv zeta. unfold handleSend.
  destruct (_ || _); cbn; auto 10.
Qed.

Lemma chat_deliver_keeps (now later : nat) (t : Task) (v : View) :
  let v' := deliver sendMessage createObjectURL now later t v in
  recorders (capture v') = recorders (capture v)
  /\ mediaRecorderRef (capture v') = mediaRecorderRef (capture v)
  /\ isRecording v' = isRecording v
  /\ timerRef v' = timerRef v /\ intervals v' = intervals v.
Proof.
  cbv zeta. destruct t as [rid chunk|rid]; cbn [deliver].
  - cbn. destruct (ondataavailable_keeps chunk (capture v)) as [-> ->]. auto.
  - unfold onstop, assemble.
    cbn [recorders mediaRecorderRef chunksRef queue blobs].
    destruct (recorders (capture v) !! rid) as [r|]; [|cbn; auto].
    match goal with
    | |- context [handleSend ?s ?e ?t ?a ?n ?l ?w] =>
        destruct (handleSend_keeps e t a n l w) as (-> & -> & -> & -> & _)
    end.
    cbn. auto.
Qed.

Lemma chat_deliver_all_keeps (now later : nat) (ts : list Task) (v : View) :
  let v' := foldl (fun st t => deliver sendMessage createObjectURL now later t st)
                  v ts in
  recorders (capture v') = recorders (capture v)
  /\ mediaRecorderRef (capture v') = mediaRecorderRef (capture v)
  /\ isRecording v' = isRecording v
  /\ timerRef v' = timerRef v /\ intervals v' = intervals v.
Proof.
  revert v. induction ts as [|t ts IH]; intros v; cbn; [auto|].
  destruct (IH (deliver sendMessage createObjectURL now later t v))
    as (-> & -> & -> & -> & ->).
  apply chat_deliver_keeps.
Qed.

Lemma chat_drain_keeps (now later : nat) (v : View) :
  let v' := drain sendMessage createObjectURL now later v in
  recorders (capture v') = recorders (capture v)
  /\ mediaRecorderRef (capture v') = mediaRecorderRef (capture v)
  /\ isRecording v' = isRecording v
  /\ timerRef v' = timerRef v /\ intervals v' = intervals v.
Proof.
  cbv zeta. unfold drain.
  destruct (chat_deliver_all_keeps now later (queue (capture v))
              (set_capture (set_queue [] (capture v)) v))
    as (-> & -> & -> & -> & ->).
  cbn. auto.
Qed.

Lemma chat_stop_in_order (shouldSend : bool) (v : View) :
  isRecording v = true ->
  in_order true (capture v) ->
  timers_in_order v ->
  let v' := fst (stopRecording strict_stop shouldSend v) in
  snd (stopRecording strict_stop shouldSend v) = Resolved tt
  /\ isRecording v' = false
  /\ in_order false (capture v')
  /\ timers_in_order v'.
Proof.
  intros Hrec (rid & Href & Hone) Htimers. cbv zeta.
  destruct (stop_in_order strict_stop rid (capture v) Href Hone)
    as (r & _ & _ & Hstop & Hafter).
  assert (stop_recorder strict_stop shouldSend v
          = (c <- recorder_stop strict_stop rid (capture v) ;;
             Resolved (stop_tracks rid c))%settled) as Hsr.
  { unfold stop_recorder. rewrite Href, Hrec. now destruct shouldSend. }
  unfold stopRecording. rewrite Hsr.
  destruct (Hafter _ Hstop) as [Hord _].
  rewrite Hstop. cbn [bind fst snd].
  split; [reflexivity|]. split; [reflexivity|]. split; [exact Hord|].
  unfold timers_in_order in Htimers |- *. rewrite Hrec in Htimers.
  destruct Htimers as (h & Ht & Hnz & Hint).
  cbn [isRecording intervals]. unfold clear_timer. rewrite Ht, Hint.
  destruct (Nat.eqb_spec h 0); [contradiction|]. cbn [fst snd].
  rewrite filter_cons. case_decide; [contradiction|]. reflexivity.
Qed.

Lemma chat_start_in_order (mic : Settled unit) (v : View) :
  isRecording v = false ->
  in_order false (capture v) ->
  timers_in_order v ->
  let v' := fst (startRecording mic v) in
  in_order (isRecording v') (capture v') /\ timers_in_order v'.
Proof.
  intros Hrec Hord Htimers. cbv zeta.
  unfold timers_in_order in Htimers. rewrite Hrec in Htimers.
  destruct mic as [[]|e]; cbn.
  - split; [now apply start_new_in_order|].
    unfold timers_in_order. cbn. exists (S (handles v)).
    rewrite Htimers. auto.
  - rewrite Hrec. split; [exact Hord|].
    unfold timers_in_order. cbn. exact Htimers.
Qed.

Lemma chat_step_in_order (e : Event) (v : View) :
  in_order (isRecording v) (capture v) /\ timers_in_order v ->
  let v' := step strict_stop sendMessage createObjectURL e v in
  in_order (isRecording v') (capture v') /\ timers_in_order v'.
Proof.
  intros [Hord Htimers]. cbv zeta.
  assert (forall env t a now later,
            let v' := handleSend sendMessage env t a now later v in
            in_order (isRecording v') (capture v') /\ timers_in_order v')
    as Hsend.
  { intros env t a now later. cbv zeta.
    destruct (handleSend_keeps env t a now later v) as (Hc & Hr & Ht & Hi & _).
    unfold timers_in_order. rewrite Hc, Hr, Ht, Hi. auto. }
  destruct e as [s|now later|file fileType| |mic now later| |h|rid chunk|now later];
    cbn [step].
  - destruct (isRecording v) eqn:Hrec; [rewrite Hrec; auto|].
    unfold timers_in_order in *. cbn. rewrite Hrec in *. auto.
  - destruct (isRecording v) eqn:Hrec; [rewrite Hrec; auto|].
    rewrite <- Hrec in Hord. apply Hsend.
  - destruct (isRecording v) eqn:Hrec; [rewrite Hrec; auto|].
    unfold timers_in_order in *. cbn. rewrite Hrec in *. auto.
  - destruct (_ && _); [|auto].
    unfold timers_in_order in *. cbn. auto.
  - destruct (nonblank (input v) || _).
    + destruct (isLoading v); [auto|]. apply Hsend.
    + destruct (isRecording v) eqn:Hrec.
      * destruct (chat_stop_in_order true v Hrec Hord Htimers)
          as (_ & Hr & Ho & Ht).
        cbv zeta in Hr, Ho, Ht. rewrite Hr. auto.
      * now apply chat_start_in_order.
  - destruct (isRecording v) eqn:Hrec; [|rewrite Hrec; auto].
    destruct (chat_stop_in_order false v Hrec Hord Htimers)
      as (_ & Hr & Ho & Ht).
    cbv zeta in Hr, Ho, Ht. rewrite Hr. auto.
  - case_bool_decide; [|auto].
    unfold timers_in_order in *. cbn. auto.
  - split; [cbn; now apply gather_in_order|].
    unfold timers_in_order in *. cbn. auto.
  - destruct (chat_drain_keeps now later v) as (Hr & Href & Hrec & Ht & Hi).
    cbv zeta in Hr, Href, Hrec, Ht, Hi.
    unfold timers_in_order. rewrite Hrec, Ht, Hi. split; [|exact Htimers].
    now apply (in_order_ext _ (capture v)).
Qed.

(** X19. Whatever happens in the chat view (typing, sending, attaching, the
    microphone and cancel buttons, timer ticks, microphone data, the event
    loop), its recorders and its timers stay in order: while recording, one
    recorder records from a live track and one interval timer runs, the one
    behind [timerRef]; otherwise no recorder records, no microphone track is
    live and no timer is left running. *)
Theorem chat_recorders_and_timers_in_order (events : list Event) (v : View) :
  in_order (isRecording v) (capture v) ->
  timers_in_order v ->
  let v' := run strict_stop sendMessage createObjectURL events v in
  in_order (isRecording v') (capture v')
  /\ timers_in_order v'
  /\ active_sessions (capture v') = (if isRecording v' then 1 else 0)
  /\ length (intervals v') = (if isRecording v' then 1 else 0).
Proof.
  revert v. induction events as [|e events IH]; intros v Hord Htimers.
  - cbn. split; [exact Hord|]. split; [exact Htimers|].
    split; [now apply in_order_sessions|].
    unfold timers_in_order in Htimers. destruct (isRecording v).
    + destruct Htimers as (h & _ & _ & ->). reflexivity.
    + now rewrite Htimers.
  - cbn. destruct (chat_step_in_order e v (conj Hord Htimers)) as [Ho Ht].
    now apply IH.
Qed.

End ChatPageFacts.

(** ** The chat view: durations, sending, reloading *)

Section ChatMore.

Import Js Media Chat ChatPage.

Variable sendMessage : list Gemini.Part -> Settled (option string).
Variable JSON_parse : string -> option (list Message).
Variable JSON_stringify : list Message -> string.

(** X20. A duration is shown as the minutes in decimal, a colon, and the
    seconds on exactly two digits. *)
Theorem formatDuration_two_digits (sec : nat) :
  formatDuration sec
  = (pretty (sec / 60) ++ ":"
     ++ String (ascii_of_nat (48 + (sec mod 60) / 10))
          (String (ascii_of_nat (48 + (sec mod 60) mod 10)) EmptyString))%string.
Proof.
  unfold formatDuration. cbv zeta.
  pose proof (Nat.mod_upper_bound sec 60 ltac:(lia)) as Hs.
  change (Nat.modulo sec 60) with (sec mod 60).
  change (Nat.div sec 60) with (sec / 60).
  generalize dependent (sec mod 60). intros s Hs.
  f_equal. f_equal.
  do 60 (destruct s as [|s]; [vm_compute; reflexivity|]). lia.
Qed.

(** X21. What [handleSend] does.  With nothing to send (a text that [trim]
    leaves empty and no attachment) or no chat session it leaves the view
    as it is.  Otherwise
    it appends two messages, the user's and then the tutor's, clears the
    input and the attachment and ends not loading; when the session
    rejects the message the second message is the apology and the error is
    logged, and when it answers with no text the fallback text is shown. *)
Theorem handleSend_outcomes (env : Closure) (overrideText : option string)
    (overrideAttachment : option Attachment) (now later : nat) (v : View) :
  let textToSend := default (c_input env) overrideText in
  let attachmentToSend :=
    match overrideAttachment with
    | Some a => Some a
    | None => c_attachment env
    end in
  let v' := handleSend sendMessage env overrideText overrideAttachment now later v in
  ((nonblank textToSend = false /\ attachmentToSend = None) \/ c_chat env = false ->
   v' = v)
  /\ ((nonblank textToSend = true \/ is_Some attachmentToSend) ->
      c_chat env = true ->
      exists reply,
        messages v'
        = messages v
          ++ [ {| id := stamp now; role := user; text := textToSend;
                  attachment_of := attachmentToSend |}; reply ]
        /\ role reply = model /\ attachment_of reply = None
        /\ input v' = ""%string /\ attachment v' = None
        /\ isLoading v' = false
        /\ (forall t,
              sendMessage (message_parts textToSend attachmentToSend) = Resolved t ->
              id reply = stamp (later + 1)
              /\ text reply
                 = text_or t "I understood, but I don't have a text response."
              /\ console v' = console v)
        /\ (forall e,
              sendMessage (message_parts textToSend attachmentToSend) = Rejected e ->
              id reply = stamp later
              /\ text reply
                 = "Sorry, I encountered an error processing your message."%string
              /\ console v' = console v ++ ["Chat error"%string])).
Proof.
  cbv zeta. unfold handleSend.
  assert (default (c_input env) overrideText
          = match overrideText with Some t => t | None => c_input env end) as ->.
  { now destruct overrideText. }
  set (textToSend := match overrideText with Some t => t | None => c_input env end).
  set (attachmentToSend := match overrideAttachment with
                           | Some a => Some a
                           | None => c_attachment env
                           end).
  split.
  - intros [[Ht Ha]| Hc].
    + rewrite Ht, Ha. reflexivity.
    + rewrite Hc. cbn. now rewrite orb_true_r.
  - intros Hsome Hchat. rewrite Hchat. cbn [negb]. rewrite orb_false_r.
    assert (negb (nonblank textToSend)
            && negb (bool_decide (is_Some attachmentToSend)) = false) as ->.
    { destruct Hsome as [->|Ha]; [reflexivity|].
      rewrite (bool_decide_eq_true_2 _ Ha). cbn. apply andb_false_r. }
    eexists. cbn [messages input attachment isLoading console].
    split; [reflexivity|].
    destruct (sendMessage (message_parts textToSend attachmentToSend)) as [t|e];
      cbn; conjuncts; try reflexivity; try discriminate.
    + intros t' [= <-]. auto.
    + intros e' _. auto.
Qed.






End ChatMore.

(** * The further properties on sample runs *)

Lemma generateVisualVocab_without_image_witness :
  exists card,
    fst (Gemini.generateVisualVocab
           (Sample.scripted
              [Sample.resolved_at 5 (Sample.text_response Sample.payload_cat);
               Sample.resolved_at 3 (Sample.text_response "")])
           (Sample.parse_table Sample.payloads) Sample.show
           "cat" Sample.empty_world)
    = Js.Resolved card
    /\ Gemini.imageUrl card = ""%string.
Proof.
  destruct (generateVisualVocab_without_image
              (Sample.scripted
                 [Sample.resolved_at 5 (Sample.text_response Sample.payload_cat);
                  Sample.resolved_at 3 (Sample.text_response "")])
              (Sample.parse_table Sample.payloads) Sample.show
              "cat" Sample.empty_world
              (Sample.text_response Sample.payload_cat)
              (Sample.text_response "")
              [("word"%string, Js.JStr "cat");
               ("definition"%string, Js.JStr "A small pet.");
               ("example"%string, Js.JStr "The cat sleeps.");
               ("translation"%string, Js.JStr "chat")])
    as (card & Hcard & Hurl & _); try reflexivity.
  exists card. split; [exact Hcard | exact Hurl].
Defined.

Lemma generateVisualVocab_empty_candidates_witness :
  fst (Gemini.generateVisualVocab
         (Sample.scripted
            [Sample.resolved_at 5 (Sample.text_response Sample.payload_cat);
             Sample.resolved_at 3 Scenario.no_candidates])
         (Sample.parse_table Sample.payloads) Sample.show
         "cat" Sample.empty_world)
  = Js.Rejected Js.TypeError.
Proof.
  apply (generateVisualVocab_empty_candidates
           (Sample.scripted
              [Sample.resolved_at 5 (Sample.text_response Sample.payload_cat);
               Sample.resolved_at 3 Scenario.no_candidates])
           (Sample.parse_table Sample.payloads) Sample.show
           "cat" Sample.empty_world
           (Sample.text_response Sample.payload_cat) Scenario.no_candidates);
    reflexivity.
Defined.

Lemma generateVisualVocab_word_truthy_witness :
  let card :=
    {| Gemini.word := Js.JStr "cat";
       Gemini.example := Some (Js.JStr "The cat sleeps.");
       Gemini.imageUrl := "data:image/png;base64,iVBORw0KGgo=";
       Gemini.definition := "A small pet. 

(Traduction: chat)" |} in
  fst (Gemini.generateVisualVocab
         (Sample.scripted
            [Sample.resolved_at 5 (Sample.text_response Sample.payload_cat);
             Sample.resolved_at 3 Sample.image_response])
         (Sample.parse_table Sample.payloads) Sample.show
         "kitty" Sample.empty_world)
  = Js.Resolved card
  /\ Js.truthy (Some (Gemini.word card)) = true
  /\ Gemini.word card = Js.JStr "cat".
Proof.
  cbv zeta. split; [reflexivity|].
  destruct (generateVisualVocab_word_truthy
              (Sample.scripted
                 [Sample.resolved_at 5 (Sample.text_response Sample.payload_cat);
                  Sample.resolved_at 3 Sample.image_response])
              (Sample.parse_table Sample.payloads) Sample.show
              "kitty" Sample.empty_world
              {| Gemini.word := Js.JStr "cat";
                 Gemini.example := Some (Js.JStr "The cat sleeps.");
                 Gemini.imageUrl := "data:image/png;base64,iVBORw0KGgo=";
                 Gemini.definition := "A small pet. 

(Traduction: chat)" |})
    as (Htruthy & _ & Hparsed).
  - discriminate.
  - reflexivity.
  - split; [exact Htruthy|].
    destruct (Hparsed (Sample.text_response Sample.payload_cat)
                [("word", Js.JStr "cat"); ("definition", Js.JStr "A small pet.");
                 ("example", Js.JStr "The cat sleeps.");
                 ("translation", Js.JStr "chat")]
                eq_refl eq_refl) as [Hword _].
    exact (Hword (Js.JStr "cat") eq_refl eq_refl).
Defined.

Lemma checkAnswers_record_witness :
  exists r,
    Lesson.history (Lesson.checkAnswers Sample.stringify 1000 1001 Sample.answered)
    = [r]
    /\ Lesson.score r <= Lesson.totalQuestions r.
Proof.
  destruct (checkAnswers_record Sample.stringify 1000 1001 Sample.answered
              Sample.two_questions)
    as (r & Hr & _ & Hle & _); try reflexivity.
  exists r. split; [exact Hr | exact Hle].
Defined.

Lemma save_then_load_witness :
  exists r,
    Lesson.history (Lesson.checkAnswers Sample.stringify 1000 1001 Sample.answered)
    = [r]
    /\ Lesson.loadHistoryItem r
         (Lesson.checkAnswers Sample.stringify 1000 1001 Sample.answered)
       = Lesson.checkAnswers Sample.stringify 1000 1001 Sample.answered.
Proof.
  destruct (save_then_load Sample.stringify 1000 1001 Sample.answered
              Sample.two_questions)
    as (r & Hr & Hload); try reflexivity.
  exists r. split; [exact Hr | exact Hload].
Defined.

Lemma run_scores_within_witness :
  Forall (fun r => Lesson.score r <= Lesson.totalQuestions r)
         (Lesson.history
            (LessonPage.view
               (LessonPage.run Sample.stringify
                  [LessonPage.Answer 0 "Bonjour"; LessonPage.Answer 1 "Bonjour";
                   LessonPage.CheckAnswers 1000 1001]
                  Scenario.lesson_page))).
Proof.
  apply (run_scores_within Sample.stringify). constructor.
Defined.

Lemma run_storage_in_sync_witness :
  Lesson.localStorage
    (LessonPage.view
       (LessonPage.run Sample.stringify Scenario.lesson_session Scenario.lesson_page))
    !! "lesson_history"%string
  = Some (Sample.stringify
            (Lesson.history
               (LessonPage.view
                  (LessonPage.run Sample.stringify Scenario.lesson_session
                     Scenario.lesson_page)))).
Proof.
  apply (run_storage_in_sync Sample.stringify). reflexivity.
Defined.

Lemma idle_in_order {Env : Type} : Safety.in_order false (@Media.idle Env).
Proof. intros j r H. discriminate. Qed.

Lemma visual_dict_recorders_in_order_witness :
  Media.active_sessions
    (VisualDict.capture
       (VisualDictPage.view
          (VisualDictPage.run true (Sample.scripted []) (Sample.parse_table [])
             Sample.show PCM.EmptyFails
             [VisualDictPage.ClickRecord (Js.Resolved tt);
              VisualDictPage.Microphone 0 [x01; x02];
              VisualDictPage.ClickSpeak]
             Scenario.cat_page)))
  = 1.
Proof.
  destruct (visual_dict_recorders_in_order true (Sample.scripted [])
              (Sample.parse_table []) Sample.show PCM.EmptyFails
              [VisualDictPage.ClickRecord (Js.Resolved tt);
               VisualDictPage.Microphone 0 [x01; x02];
               VisualDictPage.ClickSpeak]
              Scenario.cat_page) as (_ & Hcount & _).
  - apply idle_in_order.
  - exact Hcount.
Defined.

Lemma recording_reaches_the_tutor_witness :
  Gemini.issued
    (VisualDict.world
       (VisualDictPage.view
          (VisualDictPage.run true
             (Sample.scripted
                [Sample.resolved_at 1 (Sample.text_response Sample.payload_7)])
             (Sample.parse_table Sample.payloads) Sample.show PCM.EmptyFails
             [VisualDictPage.ClickRecord (Js.Resolved tt);
              VisualDictPage.Microphone 0 [x01; x02];
              VisualDictPage.Microphone 0 [x03];
              VisualDictPage.ClickRecord (Js.Resolved tt);
              VisualDictPage.EventLoop]
             Scenario.cat_page)))
  = [Gemini.pronunciationRequest "cat" "AQID"].
Proof.
  destruct (recording_reaches_the_tutor true
              (Sample.scripted
                 [Sample.resolved_at 1 (Sample.text_response Sample.payload_7)])
              (Sample.parse_table Sample.payloads) Sample.show PCM.EmptyFails
              [[x01; x02]; [x03]] (Js.Resolved tt) Scenario.cat_page
              Scenario.cat_card) as (Hissued & _).
  1-4: reflexivity.
  exact Hissued.
Defined.

Lemma handleSpeak_outcomes_witness :
  exists buf,
    VisualDictPage.played
      (VisualDictPage.handleSpeak
         (Sample.scripted [Sample.resolved_at 1 Scenario.speech_response])
         Sample.show PCM.EmptyFails Scenario.cat_page)
    = [buf]
    /\ PCM.channelCount buf = 1%Z /\ PCM.sampleRate buf = 24000%Z
    /\ length (PCM.samples buf) = 2.
Proof.
  destruct (handleSpeak_outcomes
              (Sample.scripted [Sample.resolved_at 1 Scenario.speech_response])
              Sample.show PCM.EmptyFails Scenario.cat_page Scenario.cat_card
              eq_refl)
    as (_ & _ & _ & _ & Hplay & _).
  destruct (Hplay "AIAA/w=="%string
              {| PCM.samples := map PCM.to_sample [(-32768)%Z; (-256)%Z];
                 PCM.channelCount := 1; PCM.sampleRate := 24000 |}
              eq_refl eq_refl) as (Hp & Hc & Hr & _).
  eexists. split; [exact Hp|]. split; [exact Hc|]. split; [exact Hr|reflexivity].
Defined.

Lemma chat_recorders_and_timers_in_order_witness :
  let v := ChatPage.run true Sample.always_replies Sample.object_url
             [ChatPage.ClickAction (Js.Resolved tt) 10 20;
              ChatPage.Tick 1;
              ChatPage.Microphone 0 [x01; x02; x03];
              ChatPage.ClickCancel;
              ChatPage.EventLoop 30 40]
             Chat.mounted in
  Media.active_sessions (Chat.capture v) = 0
  /\ Chat.intervals v = []
  /\ length (Chat.messages v) = 3.
Proof.
  cbv zeta.
  destruct (chat_recorders_and_timers_in_order true Sample.always_replies
              Sample.object_url
              [ChatPage.ClickAction (Js.Resolved tt) 10 20;
               ChatPage.Tick 1;
               ChatPage.Microphone 0 [x01; x02; x03];
               ChatPage.ClickCancel;
               ChatPage.EventLoop 30 40]
              Chat.mounted) as (_ & _ & Hcount & _).
  - apply idle_in_order.
  - reflexivity.
  - split; [exact Hcount|]. split; vm_compute; reflexivity.
Defined.


Lemma stop_then_drain_sends_witness :
  let v1 := fst (Chat.startRecording (Js.Resolved tt) Chat.mounted) in
  let v2 := Chat.set_capture (Media.gather 0 [x01; x02; x03] (Chat.capture v1)) v1 in
  exists reply,
    Chat.messages
      (Chat.drain Sample.always_replies Sample.object_url 10 20
         (fst (Chat.stopRecording true false v2)))
    = Chat.messages v2
      ++ [ {| Chat.id := Chat.stamp 10; Chat.role := Chat.user;
              Chat.text := ""%string;
              Chat.attachment_of :=
                Some {| Chat.type := Chat.audio;
                        Chat.url := "blob:recording"%string;
                        Chat.data := Some "AQID"%string;
                        Chat.mimeType := Some "audio/mp3"%string |} |};
           reply ].
Proof.
  cbv zeta.
  destruct (stop_then_drain_sends true Sample.always_replies Sample.object_url
              false 10 20
              (Chat.set_capture
                 (Media.gather 0 [x01; x02; x03]
                    (Chat.capture (fst (Chat.startRecording (Js.Resolved tt) Chat.mounted))))
                 (fst (Chat.startRecording (Js.Resolved tt) Chat.mounted)))
              0
              {| Media.state := Media.recording; Media.track_live := true;
                 Media.undelivered := [x01; x02; x03];
                 Media.captured := Chat.closure_of Chat.mounted |})
    as (reply & Hmsgs & _); try reflexivity.
  exists reply. exact Hmsgs.
Defined.

Lemma handleSubmit_outcomes_witness :
  let p :=
    {| VisualDictPage.word := Chat.utf8 [32; 194; 160; 9];
       VisualDictPage.isLoading := false;
       VisualDictPage.isTTSLoading := false;
       VisualDictPage.played := [];
       VisualDictPage.view := VisualDict.initial |} in
  VisualDictPage.handleSubmit (Sample.scripted []) (Sample.parse_table [])
    Sample.show p
  = p.
Proof.
  cbv zeta.
  apply (proj1 (handleSubmit_outcomes (Sample.scripted [])
                  (Sample.parse_table []) Sample.show _)).
  reflexivity.
Defined.

Lemma handleSend_outcomes_witness :
  Chat.handleSend Sample.always_replies
    {| Chat.c_chat := true; Chat.c_input := Chat.utf8 [226; 128; 175; 32];
       Chat.c_attachment := None |}
    None None 10 20 Chat.mounted
  = Chat.mounted.
Proof.
  apply (proj1 (handleSend_outcomes Sample.always_replies
                  {| Chat.c_chat := true;
                     Chat.c_input := Chat.utf8 [226; 128; 175; 32];
                     Chat.c_attachment := None |}
                  None None 10 20 Chat.mounted)).
  left. split; reflexivity.
Defined.
